(** * proxypool-go: a rotating pool of SOCKS4/5 proxies

    A shallow embedding of [proxypool.go] and the properties of its proxy
    life cycle and selection engine.

    The Go program is effectful: it reads the clock, talks to the network,
    prints, reads a file, mutates proxies through pointers and starts
    goroutines.  The embedding threads an explicit [World] through every
    operation:

    - the heap of [Proxy] structs, addressed by pointer ([addr]), because
      the pool, the caller and the background retests all share the same
      [*Proxy];
    - the environment's answers (clock readings, HTTP replies, the file
      system) as oracles in [Env], indexed by how many readings or
      requests came before, so that the clock may advance and the network
      may change its mind between any two calls;
    - a trace of heap stores and I/O actions in program order;
    - the goroutines that were started but have not run yet.

    A goroutine is run to completion when it is scheduled; the fan-in of
    [LoadProxies] schedules the negotiations it waits for, the retests
    started by [GetAvailableProxy] stay in [ready] until [schedule] picks
    them.  Goroutines that write the same struct at the same time are
    outside this model.  The blocking [ProxyPool.Get], an endless loop
    around [GetAvailableProxy] and [Proxy.Get], is embedded as the first
    [rounds] turns of that loop; while it sleeps, as many of the ready
    goroutines run as a scheduling policy [yield] says. *)

From Stdlib Require Import ZArith QArith String Ascii List Lia DecimalString.
From Stdlib Require DecimalPos.
From stdpp Require Import base list strings.

Local Open Scope string_scope.
Local Open Scope list_scope.
Local Open Scope Z_scope.

(** ** Time ([time.Time], [time.Duration]) *)

(** An instant, in nanoseconds relative to the Unix epoch. *)
Definition time_Time := Z.

(** [time.Duration] is an int64 count of nanoseconds. *)
Definition time_Duration := Z.

Definition minDuration : time_Duration := - 2 ^ 63.
Definition maxDuration : time_Duration := 2 ^ 63 - 1.
Definition time_Second : time_Duration := 1000000000.

(** The zero [time.Time] (January 1, year 1, 00:00 UTC), the value of
    [lastRequest] in a [Proxy] literal that does not set it. *)
Definition zero_Time : time_Time := - 62135596800 * time_Second.

(** [t.Sub(u)]: the difference, saturated to the int64 range. *)
Definition time_Sub (t u : time_Time) : time_Duration :=
  if t - u <? minDuration then minDuration
  else if maxDuration <? t - u then maxDuration
  else t - u.

(** [d.Seconds()].  Go computes [float64(sec) + float64(nsec)/1e9] with
    [sec := d / Second] and [nsec := d % Second] (truncated division).  A
    float64 is modelled by the exact rational it stands for; the rounding
    that is left out is monotone, so a comparison [x > y] that holds on
    the floats holds here as well, and the two can differ only when [x]
    exceeds [y] by less than the rounding step (nanoseconds, for bounds
    above 2^24 seconds). *)
Definition Seconds (d : time_Duration) : Q :=
  (inject_Z (Z.quot d time_Second) + (Z.rem d time_Second # 1000000000))%Q.

(** [float64(n)] for an [int], again as the exact rational. *)
Definition float64 (n : Z) : Q := inject_Z n.

(** [x > y] on float64. *)
Definition float64_gt (x y : Q) : bool := negb (Qle_bool x y).

(** ** Strings, errors and the formatting verbs used *)

(** A Go [error]; [None] is [nil]. *)
Definition error := option string.

(** [%d] *)
Definition fmt_d (n : Z) : string := NilZero.string_of_int (Z.to_int n).

(** [strings.Split(s, sep)] for a separator of one character. *)
Fixpoint strings_Split (s : string) (sep : ascii) : list string :=
  match s with
  | EmptyString => [EmptyString]
  | String c s' =>
      if Ascii.eqb c sep then EmptyString :: strings_Split s' sep
      else match strings_Split s' sep with
           | f :: fields => String c f :: fields
           | [] => [String c EmptyString]
           end
  end.

Definition digit (c : ascii) : option Z :=
  let n := Z.of_N (N_of_ascii c) in
  if (48 <=? n) && (n <=? 57) then Some (n - 48) else None.

Fixpoint digits (s : string) (acc : Z) : option Z :=
  match s with
  | EmptyString => Some acc
  | String c s' =>
      match digit c with
      | Some d => digits s' (acc * 10 + d)
      | None => None
      end
  end.

Definition ErrSyntax : string := "invalid syntax".
Definition ErrRange : string := "value out of range".

(** [strconv.Atoi(s)] of the Go library, an [int] of 64 bits: an optional
    sign and decimal digits.  On a syntax error the value is 0, on a range
    error the nearest bound, each with a non-nil error. *)
Definition strconv_Atoi (s : string) : Z * error :=
  let '(neg, body) :=
    match s with
    | String "-" r => (true, r)
    | String "+" r => (false, r)
    | _ => (false, s)
    end in
  match body with
  | EmptyString => (0, Some ErrSyntax)
  | _ =>
      match digits body 0 with
      | None => (0, Some ErrSyntax)
      | Some un =>
          if neg then
            if 2 ^ 63 <? un then (- 2 ^ 63, Some ErrRange) else (- un, None)
          else
            if 2 ^ 63 <=? un then (2 ^ 63 - 1, Some ErrRange) else (un, None)
      end
  end.

(** ** Data model *)

(** [socks.Dial(uri)] yields a dial function; it is identified by its URI. *)
Definition DialFunc := string.

(** [http.Transport] and [http.Client], with the fields the program sets.
    [None] is a nil function value or pointer. *)
Record Transport := mkTransport {
  Dial : option DialFunc;
  DisableKeepAlives : bool
}.

Record Client := mkClient {
  Transport_ : option Transport;
  Timeout : time_Duration
}.

(** [type Proxy struct].  The three capabilities are pointers or function
    values in Go and [nil] until [Create] sets them. *)
Record Proxy := mkProxy {
  URL : string;
  Alive : bool;
  protocol : string;
  ip : string;
  port : Z;
  lastRequest : time_Time;
  dial : option DialFunc;
  transport : option Transport;
  client : option Client
}.

(** A [*Proxy]: the index of the struct in the heap. *)
Abbreviation addr := nat (only parsing).

(** [type ProxyPool struct] *)
Record ProxyPool := mkProxyPool {
  proxies : list addr;
  TestURL : string;
  RateLimit : Z;
  RetestDelay : Z;
  AliveCount : Z;
  AvailableCount : Z
}.

(** Field assignments. *)
Definition set_URL (s : string) (p : Proxy) : Proxy :=
  mkProxy s (Alive p) (protocol p) (ip p) (port p) (lastRequest p)
          (dial p) (transport p) (client p).
Definition set_Alive (b : bool) (p : Proxy) : Proxy :=
  mkProxy (URL p) b (protocol p) (ip p) (port p) (lastRequest p)
          (dial p) (transport p) (client p).
Definition set_lastRequest (t : time_Time) (p : Proxy) : Proxy :=
  mkProxy (URL p) (Alive p) (protocol p) (ip p) (port p) t
          (dial p) (transport p) (client p).
Definition set_dial (d : option DialFunc) (p : Proxy) : Proxy :=
  mkProxy (URL p) (Alive p) (protocol p) (ip p) (port p) (lastRequest p)
          d (transport p) (client p).
Definition set_transport (t : option Transport) (p : Proxy) : Proxy :=
  mkProxy (URL p) (Alive p) (protocol p) (ip p) (port p) (lastRequest p)
          (dial p) t (client p).
Definition set_client (c : option Client) (p : Proxy) : Proxy :=
  mkProxy (URL p) (Alive p) (protocol p) (ip p) (port p) (lastRequest p)
          (dial p) (transport p) c.

(** ** The environment *)

(** What [ioutil.ReadAll(resp.Body)] gives. *)
Inductive Body :=
| ReadAll (buf : list Byte.byte)
| ReadError (err : string).

(** What [client.Get(url)] gives: an error, or a response with a status
    code whose body is still to be read. *)
Inductive Reply :=
| RoundTripError (err : string)
| Response (StatusCode : Z) (body : Body).

(** What the file at a path is: it cannot be opened, or a scanner over it
    yields these lines and then stops, at the end of the file ([None]) or
    on a read error. *)
Inductive Source :=
| OpenError (err : string)
| File (lines : list string) (scanErr : error).

Record Env := mkEnv {
  (** the instant the [n]-th reading of the clock returns *)
  wall : nat -> time_Time;
  (** the reply to the [n]-th HTTP request of the program *)
  serve : nat -> Client -> string -> Reply;
  (** the file system *)
  fs : string -> Source
}.

(** A started goroutine. *)
Inductive Task :=
| GoCreate (proxy : addr) (testURL : string)
| GoGet (proxy : addr) (url : string).

(** Heap stores and I/O actions, in program order. *)
Inductive Event :=
| EvAlloc (a : addr) (p : Proxy)
| EvStore (a : addr) (p : Proxy)
| EvRequest (c : Client) (url : string) (r : Reply)
| EvPrint (s : string)
| EvLog (s : string)
| EvGo (t : Task).

Record World := mkWorld {
  heap : list Proxy;
  ticks : nat;
  requests : nat;
  ready : list Task;
  trace : list Event
}.

(** How a call ends: it returns, it panics, or the process exits. *)
Inductive Outcome (A : Type) :=
| Val (a : A)
| Panic (msg : string)
| Exit (code : Z).
Arguments Val {A} a.
Arguments Panic {A} msg.
Arguments Exit {A} code.

Definition M (A : Type) : Type := World -> Outcome A * World.

#[global] Instance M_ret : MRet M := fun A a w => (Val a, w).
#[global] Instance M_bind : MBind M := fun A B f m w =>
  match m w with
  | (Val a, w') => f a w'
  | (Panic msg, w') => (Panic msg, w')
  | (Exit code, w') => (Exit code, w')
  end.

Definition panic {A} (msg : string) : M A := fun w => (Panic msg, w).
Definition os_Exit {A} (code : Z) : M A := fun w => (Exit code, w).

Definition emit (e : Event) : M unit := fun w =>
  (Val tt, mkWorld (heap w) (ticks w) (requests w) (ready w) (trace w ++ [e])).

Definition nil_deref : string :=
  "runtime error: invalid memory address or nil pointer dereference".

(** [p.f] for a [p : *Proxy]. *)
Definition field {A} (a : addr) (f : Proxy -> A) : M A := fun w =>
  match heap w !! a with
  | Some p => (Val (f p), w)
  | None => (Panic nil_deref, w)
  end.

(** [p.f = v] *)
Definition assign (a : addr) (f : Proxy -> Proxy) : M unit := fun w =>
  match heap w !! a with
  | Some p =>
      (Val tt, mkWorld (<[a := f p]> (heap w)) (ticks w) (requests w) (ready w)
                       (trace w ++ [EvStore a (f p)]))
  | None => (Panic nil_deref, w)
  end.

(** [&Proxy{...}] *)
Definition new (p : Proxy) : M addr := fun w =>
  (Val (length (heap w)),
   mkWorld (heap w ++ [p]) (ticks w) (requests w) (ready w)
           (trace w ++ [EvAlloc (length (heap w)) p])).

(** [go f(...)] *)
Definition go (t : Task) : M unit := fun w =>
  (Val tt, mkWorld (heap w) (ticks w) (requests w) (ready w ++ [t])
                   (trace w ++ [EvGo t])).

Section Program.

Variable env : Env.

(** [time.Now()] *)
Definition time_Now : M time_Time := fun w =>
  (Val (wall env (ticks w)),
   mkWorld (heap w) (S (ticks w)) (requests w) (ready w) (trace w)).

(** [time.Since(t)] is [time.Now().Sub(t)]. *)
Definition time_Since (t : time_Time) : M time_Duration :=
  now ← time_Now; mret (time_Sub now t).

(** [c.Get(url)] for a [c : *http.Client]. *)
Definition Client_Get (c : option Client) (url : string) : M Reply := fun w =>
  match c with
  | Some c =>
      let r := serve env (requests w) c url in
      (Val r, mkWorld (heap w) (ticks w) (S (requests w)) (ready w)
                      (trace w ++ [EvRequest c url r]))
  | None => (Panic nil_deref, w)
  end.

Definition fmt_Println (s : string) : M unit := emit (EvPrint s).

Definition http_StatusOK : Z := 200.

(** [func (proxy *Proxy) Get(url string) ([]byte, error)] *)
Definition Proxy_Get (proxy : addr) (url : string) : M (list Byte.byte * error) :=
  now ← time_Now;
  assign proxy (set_lastRequest now);;
  c ← field proxy client;
  r ← Client_Get c url;
  match r with
  | RoundTripError err =>
      assign proxy (set_Alive false);;
      fmt_Println err;;
      mret ([], Some ("HTTP request failed: " +:+ err))
  | Response StatusCode body =>
      match body with
      | ReadError err =>
          assign proxy (set_Alive false);;
          mret ([], Some ("can't read response: " +:+ err))
      | ReadAll buf =>
          if negb (StatusCode =? http_StatusOK) then
            assign proxy (set_Alive false);;
            mret ([], Some ("test URL replied with HTTP code " +:+ fmt_d StatusCode))
          else
            assign proxy (set_Alive true);;
            mret (buf, None)
      end
  end.

(** [sync.WaitGroup].  The group is modelled by the goroutines started
    under it: [wg.Add(1); go f(&wg)] registers one, [wg.Wait()] runs the
    registered goroutines to their end, in the order they were started,
    and [wg.Done()] has then nothing left to signal. *)
Definition WaitGroup := list Task.

Definition wg_Add_go (wg : WaitGroup) (t : Task) : M WaitGroup :=
  emit (EvGo t);; mret (wg ++ [t]).

Definition wg_Done : M unit := mret tt.

(** The body of [for _, version := range socksVersions] in [Create]. *)
Fixpoint Create_range (proxy : addr) (testURL : string) (socksVersions : list Z)
  : M unit :=
  match socksVersions with
  | [] => mret tt
  | version :: rest =>
      ip_ ← field proxy ip;
      port_ ← field proxy port;
      assign proxy
        (set_URL ("socks" +:+ fmt_d version +:+ "://" +:+ ip_ +:+ ":" +:+ fmt_d port_));;
      url ← field proxy URL;
      assign proxy (set_dial (Some (url +:+ "?timeout=20s")));;
      d ← field proxy dial;
      assign proxy (set_transport (Some (mkTransport d true)));;
      t ← field proxy transport;
      assign proxy (set_client (Some (mkClient t (20 * time_Second))));;
      '(_, err) ← Proxy_Get proxy testURL;
      match err with
      | None => mret tt
      | Some _ => Create_range proxy testURL rest
      end
  end.

(** [func (proxy *Proxy) Create(testURL string, wg *sync.WaitGroup)]; the
    wait group is with the caller, see [WaitGroup]. *)
Definition Proxy_Create (proxy : addr) (testURL : string) : M unit :=
  Create_range proxy testURL [5; 4];;
  wg_Done.

(** Running a goroutine to its end. *)
Definition run (t : Task) : M unit :=
  match t with
  | GoCreate proxy testURL => Proxy_Create proxy testURL
  | GoGet proxy url => Proxy_Get proxy url;; mret tt
  end.

Fixpoint wg_Wait (wg : WaitGroup) : M unit :=
  match wg with
  | [] => mret tt
  | t :: rest => run t;; wg_Wait rest
  end.

(** The scheduler runs the oldest goroutine that is ready, if any. *)
Definition schedule : M unit := fun w =>
  match ready w with
  | [] => (Val tt, w)
  | t :: rest =>
      run t (mkWorld (heap w) (ticks w) (requests w) rest (trace w))
  end.

(** The body of [for i := range pool.proxies] in [GetAvailableProxy]. *)
Fixpoint GetAvailableProxy_range (pool : ProxyPool) (ps : list addr)
  : M (option addr * error) :=
  match ps with
  | [] => mret (None, Some "no proxies available")
  | p :: rest =>
      last ← field p lastRequest;
      idle ← time_Since last;
      dead ← (if float64_gt (Seconds idle) (float64 (RetestDelay pool))
              then alive ← field p Alive; mret (negb alive)
              else mret false);
      (if dead : bool then go (GoGet p (TestURL pool)) else mret tt);;
      last ← field p lastRequest;
      idle ← time_Since last;
      usable ← (if float64_gt (Seconds idle) (float64 (RateLimit pool))
                then field p Alive
                else mret false);
      if usable : bool then mret (Some p, None)
      else GetAvailableProxy_range pool rest
  end.

(** [func (pool *ProxyPool) GetAvailableProxy()], which returns a [*Proxy]
    and an [error]. *)
Definition GetAvailableProxy (pool : ProxyPool) : M (option addr * error) :=
  GetAvailableProxy_range pool (proxies pool).

(** [func NewProxyPool(testURL string, rateLimit int, retestDelay int) *ProxyPool] *)
Definition NewProxyPool (testURL : string) (rateLimit retestDelay : Z) : ProxyPool :=
  mkProxyPool [] testURL rateLimit retestDelay 0 0.

(** The body of [for i := range pool.proxies] in [UpdateCounts]. *)
Fixpoint UpdateCounts_range (pool : ProxyPool) (ps : list addr) (alive available : Z)
  : M (Z * Z) :=
  match ps with
  | [] => mret (alive, available)
  | p :: rest =>
      a ← field p Alive;
      if a : bool then
        last ← field p lastRequest;
        idle ← time_Since last;
        if float64_gt (Seconds idle) (float64 (RateLimit pool))
        then UpdateCounts_range pool rest (alive + 1) (available + 1)
        else UpdateCounts_range pool rest (alive + 1) available
      else UpdateCounts_range pool rest alive available
  end.

(** [func (pool *ProxyPool) UpdateCounts()].  The pool is a value here: the
    call returns the pool it leaves behind. *)
Definition UpdateCounts (pool : ProxyPool) : M ProxyPool :=
  '(alive, available) ← UpdateCounts_range pool (proxies pool) 0 0;
  mret (mkProxyPool (proxies pool) (TestURL pool) (RateLimit pool)
                    (RetestDelay pool) alive available).

(** [line[i]] *)
Definition index (line : list string) (i : nat) : M string :=
  match line !! i with
  | Some s => mret s
  | None =>
      panic ("runtime error: index out of range [" +:+ fmt_d (Z.of_nat i)
             +:+ "] with length " +:+ fmt_d (Z.of_nat (length line)))
  end.

(** [log.Fatal(err)]: the message goes to the standard error, then
    [os.Exit(1)]. *)
Definition log_Fatal {A} (err : string) : M A :=
  emit (EvLog err);; os_Exit 1.

(** The body of [for scanner.Scan()] in [LoadProxies], over the lines the
    scanner yields. *)
Fixpoint LoadProxies_scan (pool : ProxyPool) (texts : list string)
    (proxies : list addr) (wg : WaitGroup) : M (list addr * WaitGroup) :=
  match texts with
  | [] => mret (proxies, wg)
  | text :: rest =>
      let line := strings_Split text ":" in
      ip ← index line 0;
      port_text ← index line 1;
      let '(port, _) := strconv_Atoi port_text in
      proxy ← new (mkProxy EmptyString false EmptyString ip port zero_Time
                           None None None);
      let proxies := proxies ++ [proxy] in
      wg ← wg_Add_go wg (GoCreate proxy (TestURL pool));
      LoadProxies_scan pool rest proxies wg
  end.

(** The body of [for _, p := range proxies] in [LoadProxies]. *)
Fixpoint LoadProxies_keep (pool : ProxyPool) (ps : list addr) : M ProxyPool :=
  match ps with
  | [] => mret pool
  | p :: rest =>
      alive ← field p Alive;
      if alive : bool then
        LoadProxies_keep
          (mkProxyPool (proxies pool ++ [p]) (TestURL pool) (RateLimit pool)
                       (RetestDelay pool) (AliveCount pool) (AvailableCount pool))
          rest
      else LoadProxies_keep pool rest
  end.

(** [func (pool *ProxyPool) LoadProxies(path string) error].  The pool is a
    value here: the call returns the pool it leaves behind together with
    its [error]; when it panics or exits it has not written to the pool. *)
Definition LoadProxies (pool : ProxyPool) (path : string) : M (ProxyPool * error) :=
  match fs env path with
  | OpenError err => log_Fatal err
  | File texts scanErr =>
      '(proxies, wg) ← LoadProxies_scan pool texts [] [];
      wg_Wait wg;;
      pool ← LoadProxies_keep pool proxies;
      match scanErr with
      | Some err => mret (pool, Some err)
      | None =>
          pool ← UpdateCounts pool;
          mret (pool, None)
      end
  end.

End Program.

(** * Vocabulary of the statements *)

(** ** Replies *)

(** The reply is a 200 response whose body was read. *)
Definition fetched (r : Reply) : bool :=
  match r with
  | Response code (ReadAll _) => code =? 200
  | _ => false
  end.

(** What [Get] returns on a reply. *)
Definition Get_returns (r : Reply) : list Byte.byte * error :=
  match r with
  | RoundTripError err => ([], Some ("HTTP request failed: " +:+ err))
  | Response _ (ReadError err) => ([], Some ("can't read response: " +:+ err))
  | Response code (ReadAll buf) =>
      if code =? 200 then (buf, None)
      else ([], Some ("test URL replied with HTTP code " +:+ fmt_d code))
  end.

(** What [Get] prints on a reply. *)
Definition Get_prints (r : Reply) : list Event :=
  match r with
  | RoundTripError err => [EvPrint err]
  | _ => []
  end.

(** The HTTP requests of a trace, oldest first. *)
Fixpoint requests_in (tr : list Event) : list (Client * string * Reply) :=
  match tr with
  | [] => []
  | EvRequest c url r :: tr => (c, url, r) :: requests_in tr
  | _ :: tr => requests_in tr
  end.

(** ** Worlds after a call *)

(** The world after a [Get] through [a], whose struct was [p] and whose
    client was [c]. *)
Definition after_Get (env : Env) (a : addr) (p : Proxy) (c : Client)
    (url : string) (w : World) : World :=
  let now := wall env (ticks w) in
  let r := serve env (requests w) c url in
  let p1 := set_lastRequest now p in
  let p2 := set_Alive (fetched r) p1 in
  mkWorld (<[a := p2]> (heap w)) (S (ticks w)) (S (requests w)) (ready w)
          (trace w ++ [EvStore a p1; EvRequest c url r; EvStore a p2] ++ Get_prints r).

Definition socks_URL (version : Z) (p : Proxy) : string :=
  "socks" +:+ fmt_d version +:+ "://" +:+ ip p +:+ ":" +:+ fmt_d (port p).

Definition socks_dial (version : Z) (p : Proxy) : DialFunc :=
  socks_URL version p +:+ "?timeout=20s".

Definition socks_transport (version : Z) (p : Proxy) : Transport :=
  mkTransport (Some (socks_dial version p)) true.

Definition socks_client (version : Z) (p : Proxy) : Client :=
  mkClient (Some (socks_transport version p)) (20 * time_Second).

(** The struct [p] bound to a SOCKS version, before the test fetch. *)
Definition bound (version : Z) (p : Proxy) : Proxy :=
  mkProxy (socks_URL version p) (Alive p) (protocol p) (ip p) (port p)
          (lastRequest p) (Some (socks_dial version p))
          (Some (socks_transport version p)) (Some (socks_client version p)).

(** The world after the four assignments that bind [a] to a version. *)
Definition after_bind (version : Z) (a : addr) (p : Proxy) (w : World) : World :=
  let p1 := set_URL (socks_URL version p) p in
  let p2 := set_dial (Some (socks_dial version p)) p1 in
  let p3 := set_transport (Some (socks_transport version p)) p2 in
  mkWorld (<[a := bound version p]> (heap w)) (ticks w) (requests w) (ready w)
          (trace w ++ [EvStore a p1; EvStore a p2; EvStore a p3;
                       EvStore a (bound version p)]).

(** The struct after one attempt of [Create]: bound to the version,
    stamped, and alive or not by the reply to the test fetch. *)
Definition tried (env : Env) (version : Z) (p : Proxy) (testURL : string)
    (w : World) : Proxy :=
  set_Alive (fetched (serve env (requests w) (socks_client version p) testURL))
            (set_lastRequest (wall env (ticks w)) (bound version p)).

(** The world after one attempt. *)
Definition attempt (env : Env) (version : Z) (a : addr) (p : Proxy)
    (testURL : string) (w : World) : World :=
  after_Get env a (bound version p) (socks_client version p) testURL
            (after_bind version a p w).

(** The version [Create] ends on, given the reply to the SOCKS5 attempt. *)
Definition settled (r5 : Reply) : Z := if fetched r5 then 5 else 4.

(** Whether the negotiation of [p] succeeds when its first test fetch is
    the [n]-th request of the program: SOCKS5 answers, or else SOCKS4. *)
Definition negotiated (env : Env) (n : nat) (testURL : string) (p : Proxy) : bool :=
  fetched (serve env n (socks_client 5 p) testURL)
  || fetched (serve env (S n) (socks_client 4 p) testURL).

(** ** Selection *)

(** The idle time of [q] measured at the [k]-th reading of the clock. *)
Definition idle (env : Env) (k : nat) (q : Proxy) : time_Duration :=
  time_Sub (wall env k) (lastRequest q).

(** The two tests of the loop body of [GetAvailableProxy], at the [k]-th
    reading of the clock. *)
Definition retestable (env : Env) (pool : ProxyPool) (k : nat) (q : Proxy) : bool :=
  float64_gt (Seconds (idle env k q)) (float64 (RetestDelay pool)) && negb (Alive q).

Definition usable (env : Env) (pool : ProxyPool) (k : nat) (q : Proxy) : bool :=
  float64_gt (Seconds (idle env k q)) (float64 (RateLimit pool)) && Alive q.

(** The retest the loop body starts for [a]. *)
Definition retest (env : Env) (pool : ProxyPool) (k : nat) (a : addr) (q : Proxy)
  : list Task :=
  if retestable env pool k q then [GoGet a (TestURL pool)] else [].

(** The world after one turn of the loop on [a]. *)
Definition after_turn (env : Env) (pool : ProxyPool) (a : addr) (q : Proxy)
    (w : World) : World :=
  mkWorld (heap w) (S (S (ticks w))) (requests w)
          (ready w ++ retest env pool (ticks w) a q)
          (trace w ++ map EvGo (retest env pool (ticks w) a q)).

(** A retest started by a scan of [ps] from the world [w] that ended in
    [w']: a [Get] of the test URL through a proxy of [ps] that was dead and
    idle for more than [RetestDelay] seconds at a reading of the scan. *)
Definition justified_retest (env : Env) (pool : ProxyPool) (ps : list addr)
    (w w' : World) (t : Task) : Prop :=
  exists a q k,
    t = GoGet a (TestURL pool) /\ a ∈ ps /\ heap w !! a = Some q /\
    Alive q = false /\ (ticks w <= k < ticks w')%nat /\
    RetestDelay pool * time_Second < idle env k q.

(** The proxy at index [j] of [ps] fails the selection test of its turn,
    which reads the clock for the [(ticks w + 2 j + 1)]-th time. *)
Definition passed_over (env : Env) (pool : ProxyPool) (ps : list addr)
    (w : World) (j : nat) : Prop :=
  exists b qb, ps !! j = Some b /\ heap w !! b = Some qb /\
    usable env pool (ticks w + 2 * j + 1)%nat qb = false.

(** ** Loading *)

(** The number of fields of a line. *)
Definition fields (text : string) : nat := length (strings_Split text ":").

(** The struct the loop of [LoadProxies] builds from a line that has the
    two fields the loop indexes. *)
Definition candidate (text : string) : option Proxy :=
  match strings_Split text ":" with
  | ip :: port_text :: _ =>
      Some (mkProxy EmptyString false EmptyString ip
                    (fst (strconv_Atoi port_text)) zero_Time None None None)
  | _ => None
  end.

(** The structs built from the lines. *)
Definition candidates (texts : list string) : list Proxy := omap candidate texts.

Definition index_out_of_range : string :=
  "runtime error: index out of range [1] with length 1".

(** The world after the loop body allocated [p0] and started its
    negotiation. *)
Definition after_line (pool : ProxyPool) (p0 : Proxy) (w : World) : World :=
  mkWorld (heap w ++ [p0]) (ticks w) (requests w) (ready w)
          (trace w ++ [EvAlloc (length (heap w)) p0;
                       EvGo (GoCreate (length (heap w)) (TestURL pool))]).

(** [a] points to a live struct of the heap. *)
Definition alive_in (h : list Proxy) (a : addr) : bool :=
  match h !! a with
  | Some q => Alive q
  | None => false
  end.

(** * Scenarios *)

(** A small network: the proxy at 10.0.0.2:1080 speaks SOCKS4 only and is
    the only one that answers; the clock advances by one second from one
    reading to the next. *)
Definition example_com : string := "http://example.com".

Definition lab_serve (n : nat) (c : Client) (url : string) : Reply :=
  match Transport_ c with
  | Some (mkTransport (Some d) _) =>
      if String.eqb d "socks4://10.0.0.2:1080?timeout=20s"
      then Response 200 (ReadAll [])
      else RoundTripError "dial tcp: connection refused"
  | _ => RoundTripError "no transport"
  end.

Definition lab_fs (path : string) : Source :=
  if String.eqb path "proxies.txt" then
    File ["10.0.0.1:1080"; "10.0.0.2:1080"] None
  else if String.eqb path "notes.txt" then
    File ["10.0.0.2:1080"; "localhost"; "10.0.0.1:1080"] None
  else if String.eqb path "torn.txt" then
    File ["10.0.0.2:1080"] (Some "read torn.txt: input/output error")
  else OpenError ("open " +:+ path +:+ ": no such file or directory").

Definition lab : Env :=
  mkEnv (fun n => Z.of_nat n * time_Second) lab_serve lab_fs.

(** The same network with a clock that stands still at the epoch. *)
Definition frozen : Env := mkEnv (fun _ => 0) lab_serve lab_fs.

(** A network on which every proxy answers, and a list with a port that is
    not a number. *)
Definition lenient : Env :=
  mkEnv (fun n => Z.of_nat n * time_Second)
        (fun _ _ _ => Response 200 (ReadAll []))
        (fun _ => File ["10.0.0.9:http"] None).

Definition lab_pool : ProxyPool := NewProxyPool example_com 10 300.

(** The program has just started. *)
Definition boot : World := mkWorld [] 0 0 [] [].

(** The struct of 10.0.0.2:1080, as read from its line and as negotiated
    at the instant [t]. *)
Definition fresh2 : Proxy :=
  mkProxy EmptyString false EmptyString "10.0.0.2" 1080 zero_Time None None None.

Definition proxy2 (alive : bool) (t : time_Time) : Proxy :=
  set_Alive alive (set_lastRequest t (bound 4 fresh2)).

(** A pool of that one proxy, looked at after [n] readings of the clock. *)
Definition pool2 : ProxyPool := mkProxyPool [0%nat] example_com 10 300 1 1.

Definition at_reading (n : nat) (q : Proxy) : World := mkWorld [q] n 1 [] [].


(** * The blocking fetch *)

Section Blocking.

Variable env : Env.

(** How many of the ready goroutines run to their end while the caller
    sleeps, given the world at that moment.  The Go scheduler decides; the
    properties below hold for every choice. *)
Variable yield : World -> nat.

Fixpoint schedule_n (n : nat) : M unit :=
  match n with
  | O => mret tt
  | S n => schedule env;; schedule_n n
  end.

(** [time.Sleep(d)]: the caller is parked and other goroutines run.  The
    time that passes shows in the next reading of [wall]. *)
Definition time_Sleep (d : time_Duration) : M unit := fun w =>
  schedule_n (yield w) w.

(** [func (pool *ProxyPool) Get(url string) []byte], the first [rounds]
    turns of its endless [for] loop: [None] when none of them returned. *)
Fixpoint ProxyPool_Get (rounds : nat) (pool : ProxyPool) (url : string)
  : M (option (list Byte.byte)) :=
  match rounds with
  | O => mret None
  | S rounds =>
      '(proxy, err) ← GetAvailableProxy env pool;
      returned ←
        match err with
        | None =>
            '(r, reqErr) ←
              match proxy with
              | Some proxy => Proxy_Get env proxy url
              | None => time_Now env;; panic nil_deref
              end;
            match reqErr with
            | None => mret (Some r)
            | Some _ => mret None
            end
        | Some _ => mret None
        end;
      match returned with
      | Some r => mret (Some r)
      | None => time_Sleep time_Second;; ProxyPool_Get rounds pool url
      end
  end.

End Blocking.

(** * More vocabulary *)

(** The value of a decimal numeral read from the left, with [acc] read so
    far. *)
Fixpoint horner (u : Decimal.uint) (acc : Z) : Z :=
  match u with
  | Decimal.Nil => acc
  | Decimal.D0 u => horner u (acc * 10)
  | Decimal.D1 u => horner u (acc * 10 + 1)
  | Decimal.D2 u => horner u (acc * 10 + 2)
  | Decimal.D3 u => horner u (acc * 10 + 3)
  | Decimal.D4 u => horner u (acc * 10 + 4)
  | Decimal.D5 u => horner u (acc * 10 + 5)
  | Decimal.D6 u => horner u (acc * 10 + 6)
  | Decimal.D7 u => horner u (acc * 10 + 7)
  | Decimal.D8 u => horner u (acc * 10 + 8)
  | Decimal.D9 u => horner u (acc * 10 + 9)
  end.

(** The two steps of [strconv.Atoi]: the sign is taken off, the rest is
    read. *)
Definition unsign (s : string) : bool * string :=
  match s with
  | String "-" r => (true, r)
  | String "+" r => (false, r)
  | _ => (false, s)
  end.

Definition Atoi_signed (neg : bool) (body : string) : Z * error :=
  match body with
  | EmptyString => (0, Some ErrSyntax)
  | _ =>
      match digits body 0 with
      | None => (0, Some ErrSyntax)
      | Some un =>
          if neg then
            if 2 ^ 63 <? un then (- 2 ^ 63, Some ErrRange) else (- un, None)
          else
            if 2 ^ 63 <=? un then (2 ^ 63 - 1, Some ErrRange) else (un, None)
      end
  end.

(** The world after [Create] on [a], whose struct was [p]. *)
Definition after_Create (env : Env) (a : addr) (p : Proxy) (testURL : string)
    (w : World) : World :=
  if fetched (serve env (requests w) (socks_client 5 p) testURL)
  then attempt env 5 a p testURL w
  else attempt env 4 a (tried env 5 p testURL w) testURL
               (attempt env 5 a p testURL w).

(** The test fetches [Create] makes: one when SOCKS5 answers, else two. *)
Definition Create_cost (env : Env) (p : Proxy) (testURL : string) (w : World)
  : nat :=
  if fetched (serve env (requests w) (socks_client 5 p) testURL) then 1 else 2.



(** * Properties *)

(** ** Clock arithmetic *)

Lemma Seconds_exact (d : time_Duration) : (Seconds d == d # 1000000000)%Q.
Proof.
  unfold Seconds, time_Second, Qeq, Qplus, inject_Z; simpl.
  pose proof (Z.quot_rem' d 1000000000). lia.
Qed.

Lemma float64_gt_Seconds (d : time_Duration) (n : Z) :
  float64_gt (Seconds d) (float64 n) = true <-> n * time_Second < d.
Proof.
  unfold float64_gt, float64. rewrite negb_true_iff.
  destruct (Qle_bool (Seconds d) (inject_Z n)) eqn:E.
  - apply Qle_bool_iff in E. rewrite Seconds_exact in E.
    unfold Qle, inject_Z in E; simpl in E. unfold time_Second. split; [discriminate | lia].
  - split; [intros _ | reflexivity].
    assert (~ (Seconds d <= inject_Z n)%Q) as H.
    { intros H. apply Qle_bool_iff in H. congruence. }
    rewrite Seconds_exact in H. unfold Qle, inject_Z in H; simpl in H.
    unfold time_Second. lia.
Qed.

Lemma time_Sub_mono (t t' u : time_Time) : t <= t' -> time_Sub t u <= time_Sub t' u.
Proof.
  unfold time_Sub, minDuration, maxDuration. intros H.
  repeat match goal with |- context [?a <? ?b] => destruct (Z.ltb_spec a b) end; lia.
Qed.

(** ** Running the primitives *)

Ltac unfold_M :=
  unfold mbind, M_bind, mret, M_ret, field, assign, new, go, emit, panic,
    os_Exit, time_Since, time_Now, Client_Get, fmt_Println; simpl.

Ltac heap_steps H :=
  repeat first
    [ rewrite H | rewrite (list_lookup_insert_eq _ _ _ (lookup_lt_Some _ _ _ H))
    | rewrite list_insert_insert_eq | progress simpl ].

Lemma lookup_store (h : list Proxy) (a : addr) (p q : Proxy) :
  h !! a = Some p -> <[a := q]> h !! a = Some q.
Proof. intros H. apply list_lookup_insert_eq. eapply lookup_lt_Some; eauto. Qed.

(** ** [Proxy.Get] *)

Lemma Proxy_Get_eq env a url w p c :
  heap w !! a = Some p -> client p = Some c ->
  Proxy_Get env a url w =
    (Val (Get_returns (serve env (requests w) c url)), after_Get env a p c url w).
Proof.
  intros Hp Hc. unfold Proxy_Get, after_Get. unfold_M. heap_steps Hp.
  rewrite Hc.
  destruct (serve env (requests w) c url) as [err | code [buf | err]];
    heap_steps Hp.
  - rewrite <- !app_assoc. reflexivity.
  - unfold http_StatusOK. destruct (code =? 200); heap_steps Hp;
      rewrite <- !app_assoc; reflexivity.
  - rewrite <- !app_assoc. reflexivity.
Qed.

Lemma Proxy_Get_nil_client env a url w p :
  heap w !! a = Some p -> client p = None ->
  Proxy_Get env a url w =
    (Panic nil_deref,
     mkWorld (<[a := set_lastRequest (wall env (ticks w)) p]> (heap w))
             (S (ticks w)) (requests w) (ready w)
             (trace w ++ [EvStore a (set_lastRequest (wall env (ticks w)) p)])).
Proof.
  intros Hp Hc. unfold Proxy_Get. unfold_M. heap_steps Hp.
  rewrite Hc. reflexivity.
Qed.

Lemma Get_returns_nil r : snd (Get_returns r) = None <-> fetched r = true.
Proof.
  destruct r as [err | code [buf | err]]; simpl; try (split; discriminate).
  destruct (code =? 200); simpl; split; congruence.
Qed.

Lemma heap_after_Get env a p c url w q :
  heap w !! a = Some q ->
  heap (after_Get env a p c url w) !! a =
    Some (set_Alive (fetched (serve env (requests w) c url))
                    (set_lastRequest (wall env (ticks w)) p)).
Proof. intros H. simpl. eauto using lookup_store. Qed.

Lemma requests_in_app tr1 tr2 :
  requests_in (tr1 ++ tr2) = requests_in tr1 ++ requests_in tr2.
Proof.
  induction tr1 as [|e tr1 IH]; simpl; [reflexivity|].
  destruct e; simpl; rewrite ?IH; reflexivity.
Qed.

Lemma requests_in_prints r : requests_in (Get_prints r) = [].
Proof. destruct r; reflexivity. Qed.

Lemma fetched_200 r : fetched r = true <-> exists body, r = Response 200 (ReadAll body).
Proof.
  destruct r as [err | code [buf | err]]; simpl.
  - split; [discriminate | intros [b Hb]; discriminate].
  - rewrite Z.eqb_eq. split.
    + intros ->. eauto.
    + intros [b Hb]. congruence.
  - split; [discriminate | intros [b Hb]; discriminate].
Qed.

(** C1: after [Get] through a proxy whose client is bound, [Alive] is true
    exactly when the reply was a 200 response whose body was read; [Get]
    then returns that body and a nil error.  A transport error, an
    unreadable body and any other status leave [Alive] false. *)
Theorem Proxy_Get_Alive_iff_200 env a url w p c :
  heap w !! a = Some p -> client p = Some c ->
  let r := serve env (requests w) c url in
  exists buf err w' p',
    Proxy_Get env a url w = (Val (buf, err), w') /\
    heap w' !! a = Some p' /\
    (Alive p' = true <-> exists body, r = Response 200 (ReadAll body)) /\
    (Alive p' = true <-> err = None) /\
    (forall body, r = Response 200 (ReadAll body) -> buf = body) /\
    (forall e, r = RoundTripError e -> Alive p' = false) /\
    (forall code e, r = Response code (ReadError e) -> Alive p' = false) /\
    (forall code body, r = Response code (ReadAll body) -> code <> 200 ->
       Alive p' = false).
Proof.
  intros Hp Hc r.
  rewrite (Proxy_Get_eq env a url w p c Hp Hc). fold r.
  destruct (Get_returns r) as [buf err] eqn:Eret.
  exists buf, err, (after_Get env a p c url w),
    (set_Alive (fetched r) (set_lastRequest (wall env (ticks w)) p)).
  split; [reflexivity|].
  split; [eapply heap_after_Get; eauto|].
  simpl Alive.
  pose proof (Get_returns_nil r) as Hnil. rewrite Eret in Hnil. simpl in Hnil.
  split; [apply fetched_200|].
  split; [symmetry; exact Hnil|].
  split; [intros body Hr; rewrite Hr in Eret; simpl in Eret; congruence|].
  split; [intros e Hr; rewrite Hr; reflexivity|].
  split; [intros code e Hr; rewrite Hr; reflexivity|].
  intros code body Hr Hcode. rewrite Hr. simpl. apply Z.eqb_neq. exact Hcode.
Qed.


(** ** [Proxy.Create] *)

Lemma heap_after_bind version a p w :
  heap w !! a = Some p -> heap (after_bind version a p w) !! a = Some (bound version p).
Proof. intros H. simpl. eauto using lookup_store. Qed.

Lemma attempt_facts env version a p testURL w :
  let w' := attempt env version a p testURL w in
  heap w' = <[a := tried env version p testURL w]> (heap w) /\
  ready w' = ready w /\ requests w' = S (requests w) /\ ticks w' = S (ticks w) /\
  requests_in (trace w') =
    requests_in (trace w) ++
      [(socks_client version p, testURL,
        serve env (requests w) (socks_client version p) testURL)].
Proof.
  simpl. rewrite list_insert_insert_eq. repeat split.
  rewrite !requests_in_app. simpl. rewrite requests_in_prints, !app_nil_r.
  reflexivity.
Qed.

Lemma Create_range_cons env a testURL version rest w p :
  heap w !! a = Some p ->
  Create_range env a testURL (version :: rest) w =
    if fetched (serve env (requests w) (socks_client version p) testURL)
    then (Val tt, attempt env version a p testURL w)
    else Create_range env a testURL rest (attempt env version a p testURL w).
Proof.
  intros Hp. unfold attempt. cbn [Create_range].
  unfold mbind, M_bind, mret, M_ret, field, assign.
  heap_steps Hp.
  fold (socks_URL version p). fold (socks_dial version p).
  fold (socks_transport version p). fold (socks_client version p).
  unfold set_client, set_transport, set_dial, set_URL; simpl.
  fold (bound version p).
  match goal with |- context [Proxy_Get env a testURL ?w0] =>
    replace w0 with (after_bind version a p w)
      by (unfold after_bind; simpl; rewrite <- !app_assoc; reflexivity)
  end.
  rewrite (Proxy_Get_eq env a testURL _ (bound version p) (socks_client version p)
             (heap_after_bind version a p w Hp) eq_refl).
  change (requests (after_bind version a p w)) with (requests w).
  pose proof (Get_returns_nil (serve env (requests w) (socks_client version p) testURL)) as E.
  destruct (Get_returns _) as [buf [err|]]; simpl in *.
  - destruct (fetched _); [ | reflexivity]. destruct E as [_ E]. discriminate E; reflexivity.
  - destruct E as [E _]. rewrite E; reflexivity.
Qed.

Lemma Proxy_Create_outcome env a testURL w p :
  heap w !! a = Some p ->
  let r5 := serve env (requests w) (socks_client 5 p) testURL in
  let r4 := serve env (S (requests w)) (socks_client 4 p) testURL in
  exists w' p',
    Proxy_Create env a testURL w = (Val tt, w') /\
    heap w' = <[a := p']> (heap w) /\ ready w' = ready w /\
    (requests w <= requests w')%nat /\
    requests_in (trace w') =
      requests_in (trace w) ++
        (socks_client 5 p, testURL, r5) ::
        (if fetched r5 then [] else [(socks_client 4 p, testURL, r4)]) /\
    ip p' = ip p /\ port p' = port p /\ protocol p' = protocol p /\
    URL p' = socks_URL (settled r5) p /\
    dial p' = Some (socks_dial (settled r5) p) /\
    client p' = Some (socks_client (settled r5) p) /\
    Alive p' = fetched r5 || fetched r4.
Proof.
  intros Hp r5 r4. unfold Proxy_Create, wg_Done, settled.
  unfold mbind at 1, M_bind at 1.
  rewrite (Create_range_cons env a testURL 5 [4] w p Hp). fold r5.
  destruct (attempt_facts env 5 a p testURL w) as (Hh5 & Hy5 & Hn5 & Ht5 & Hr5).
  fold r5 in Hr5.
  destruct (fetched r5) eqn:E5.
  - exists (attempt env 5 a p testURL w), (tried env 5 p testURL w).
    split; [reflexivity|]. rewrite Hh5, Hy5, Hn5, Hr5.
    repeat split; try lia. exact E5.
  - assert (heap (attempt env 5 a p testURL w) !! a = Some (tried env 5 p testURL w))
      as Hp5 by (rewrite Hh5; eauto using lookup_store).
    rewrite (Create_range_cons env a testURL 4 [] _ _ Hp5).
    set (p5 := tried env 5 p testURL w) in *.
    set (w5 := attempt env 5 a p testURL w) in *.
    destruct (attempt_facts env 4 a p5 testURL w5) as (Hh4 & Hy4 & Hn4 & Ht4 & Hr4).
    rewrite Hn5 in *.
    change (socks_client 4 p5) with (socks_client 4 p) in *. fold r4 in Hr4 |- *.
    assert (Alive (tried env 4 p5 testURL w5) = fetched r4) as Ha4
      by (unfold tried; rewrite Hn5; reflexivity).
    exists (attempt env 4 a p5 testURL w5), (tried env 4 p5 testURL w5).
    split; [destruct (fetched r4); reflexivity|].
    rewrite Hh4, Hh5, list_insert_insert_eq, Hy4, Hy5, Hn4, Ha4, Hr4, Hr5, <- app_assoc.
    repeat split; lia.
Qed.

(** C9: [Create] first tries SOCKS5.  When that test fetch succeeds it is
    the only request: the proxy keeps the SOCKS5 URL, dial function and
    client, and is alive.  Only otherwise a second and last request goes
    through SOCKS4: the proxy keeps the SOCKS4 URL, dial function and
    client, and is alive exactly when that fetch succeeded.  The version
    lives in the URL; the field [protocol] is never written. *)
Theorem Proxy_Create_socks5_then_socks4 env a testURL w p :
  heap w !! a = Some p ->
  let r5 := serve env (requests w) (socks_client 5 p) testURL in
  let r4 := serve env (S (requests w)) (socks_client 4 p) testURL in
  exists w' p',
    Proxy_Create env a testURL w = (Val tt, w') /\
    heap w' !! a = Some p' /\
    ip p' = ip p /\ port p' = port p /\ protocol p' = protocol p /\
    if fetched r5 then
      requests_in (trace w') =
        requests_in (trace w) ++ [(socks_client 5 p, testURL, r5)] /\
      URL p' = socks_URL 5 p /\ dial p' = Some (socks_dial 5 p) /\
      client p' = Some (socks_client 5 p) /\ Alive p' = true
    else
      requests_in (trace w') =
        requests_in (trace w) ++
          [(socks_client 5 p, testURL, r5); (socks_client 4 p, testURL, r4)] /\
      URL p' = socks_URL 4 p /\ dial p' = Some (socks_dial 4 p) /\
      client p' = Some (socks_client 4 p) /\ Alive p' = fetched r4.
Proof.
  intros Hp r5 r4.
  destruct (Proxy_Create_outcome env a testURL w p Hp)
    as (w' & p' & E & Hh & _ & _ & Hr & Hi & Hpo & Hpr & Hu & Hd & Hc & Ha).
  fold r5 r4 in Hr, Hu, Hd, Hc, Ha. unfold settled in *.
  exists w', p'. split; [exact E|]. split.
  { rewrite Hh. eauto using lookup_store. }
  repeat split; auto; destruct (fetched r5); auto.
Qed.

(** ** [ProxyPool.GetAvailableProxy] *)

Lemma GetAvailableProxy_range_cons env pool a rest w q :
  heap w !! a = Some q ->
  GetAvailableProxy_range env pool (a :: rest) w =
    if usable env pool (S (ticks w)) q
    then (Val (Some a, None), after_turn env pool a q w)
    else GetAvailableProxy_range env pool rest (after_turn env pool a q w).
Proof.
  intros Hq. cbn [GetAvailableProxy_range].
  unfold after_turn, retest, retestable, usable, idle.
  unfold mbind, M_bind, mret, M_ret, field, go, time_Since, time_Now.
  remember (float64_gt (Seconds (time_Sub (wall env (ticks w)) (lastRequest q)))
                       (float64 (RetestDelay pool))) as b1 eqn:E1.
  remember (float64_gt (Seconds (time_Sub (wall env (S (ticks w))) (lastRequest q)))
                       (float64 (RateLimit pool))) as b2 eqn:E2.
  destruct (Alive q) eqn:EA, b1, b2;
    repeat (heap_steps Hq; rewrite <- ?E1, <- ?E2, ?EA, ?app_nil_r); reflexivity.
Qed.

Lemma GetAvailableProxy_range_nil_deref env pool a rest w :
  heap w !! a = None ->
  GetAvailableProxy_range env pool (a :: rest) w = (Panic nil_deref, w).
Proof.
  intros Hq. cbn [GetAvailableProxy_range].
  unfold mbind, M_bind, field. rewrite Hq. reflexivity.
Qed.

Lemma retest_justified env pool a q w t ps w' :
  heap w !! a = Some q -> a ∈ ps -> (S (ticks w) <= ticks w')%nat ->
  t ∈ retest env pool (ticks w) a q -> justified_retest env pool ps w w' t.
Proof.
  intros Hq Ha Hk. unfold retest.
  destruct (retestable env pool (ticks w) q) eqn:E; [|inversion 1].
  intros Ht. apply list_elem_of_singleton in Ht. subst t.
  unfold retestable in E. apply andb_true_iff in E. destruct E as [E1 E2].
  apply float64_gt_Seconds in E1. apply negb_true_iff in E2.
  exists a, q, (ticks w). repeat split; auto; lia.
Qed.

Lemma GetAvailableProxy_range_retests env pool ps w :
  exists launched,
    let w' := snd (GetAvailableProxy_range env pool ps w) in
    heap w' = heap w /\ requests w' = requests w /\
    (ticks w <= ticks w')%nat /\
    ready w' = ready w ++ launched /\
    trace w' = trace w ++ map EvGo launched /\
    Forall (justified_retest env pool ps w w') launched.
Proof.
  revert w. induction ps as [|a rest IH]; intros w.
  - exists []. simpl. rewrite !app_nil_r. repeat split; auto.
  - destruct (heap w !! a) as [q|] eqn:Hq.
    + rewrite (GetAvailableProxy_range_cons _ _ _ _ _ _ Hq).
      destruct (usable env pool (S (ticks w)) q).
      * exists (retest env pool (ticks w) a q). simpl.
        repeat split; auto.
        apply Forall_forall. intros t Ht.
        eapply retest_justified; eauto; simpl; [left | lia].
      * destruct (IH (after_turn env pool a q w)) as (l & H1 & H2 & H3 & H4 & H5 & H6).
        exists (retest env pool (ticks w) a q ++ l).
        cbn zeta in *. simpl in H1, H2, H3, H4, H5.
        rewrite H1, H2, H4, H5, map_app, !app_assoc.
        repeat split; auto; [lia|].
        apply Forall_app. split.
        -- apply Forall_forall. intros t Ht.
           eapply retest_justified; eauto; [left | lia].
        -- eapply Forall_impl; [exact H6|]. simpl.
           intros t (b & qb & k & -> & Hb & Hqb & Hd & Hk & Hi).
           exists b, qb, k. repeat split; auto; [right; auto | simpl in Hk; lia | lia].
    + rewrite (GetAvailableProxy_range_nil_deref _ _ _ _ _ Hq).
      exists []. simpl. rewrite !app_nil_r. repeat split; auto.
Qed.

Lemma passed_over_cons env pool a q rest w j :
  passed_over env pool rest (after_turn env pool a q w) j ->
  passed_over env pool (a :: rest) w (S j).
Proof.
  intros (b & qb & H1 & H2 & H3). exists b, qb. simpl in *.
  replace (ticks w + S (j + S (j + 0)) + 1)%nat
    with (S (S (ticks w)) + (j + (j + 0)) + 1)%nat by lia.
  auto.
Qed.

Lemma GetAvailableProxy_range_some env pool ps w a err w' :
  GetAvailableProxy_range env pool ps w = (Val (Some a, err), w') ->
  exists i q,
    ps !! i = Some a /\ heap w !! a = Some q /\
    usable env pool (ticks w + 2 * i + 1)%nat q = true /\
    (forall j, (j < i)%nat -> passed_over env pool ps w j) /\
    ticks w' = (ticks w + 2 * (i + 1))%nat /\ err = None.
Proof.
  revert w. induction ps as [|b rest IH]; intros w H.
  - discriminate H.
  - destruct (heap w !! b) as [q|] eqn:Hq.
    + rewrite (GetAvailableProxy_range_cons _ _ _ _ _ _ Hq) in H.
      destruct (usable env pool (S (ticks w)) q) eqn:E.
      * inversion H; subst. exists 0%nat, q. simpl.
        replace (ticks w + 0 + 1)%nat with (S (ticks w)) by lia.
        repeat split; auto; try lia; intros j Hj; lia.
      * destruct (IH _ H) as (i & qa & H1 & H2 & H3 & H4 & H5 & H6).
        exists (S i), qa. simpl in H2, H3, H5. simpl.
        replace (ticks w + S (i + S (i + 0)) + 1)%nat
          with (S (S (ticks w)) + 2 * i + 1)%nat by lia.
        repeat split; auto; try lia.
        intros [|j] Hj.
        -- exists b, q. simpl.
           replace (ticks w + 0 + 1)%nat with (S (ticks w)) by lia. auto.
        -- apply (passed_over_cons env pool b q). apply H4. lia.
    + rewrite (GetAvailableProxy_range_nil_deref _ _ _ _ _ Hq) in H. discriminate H.
Qed.

Lemma GetAvailableProxy_range_none env pool ps w err w' :
  GetAvailableProxy_range env pool ps w = (Val (None, err), w') ->
  err = Some "no proxies available" /\
  ticks w' = (ticks w + 2 * length ps)%nat /\
  forall j, (j < length ps)%nat -> passed_over env pool ps w j.
Proof.
  revert w. induction ps as [|b rest IH]; intros w H.
  - inversion H; subst. simpl. repeat split; auto; try lia; intros j Hj; lia.
  - destruct (heap w !! b) as [q|] eqn:Hq.
    + rewrite (GetAvailableProxy_range_cons _ _ _ _ _ _ Hq) in H.
      destruct (usable env pool (S (ticks w)) q) eqn:E; [discriminate H|].
      destruct (IH _ H) as (H1 & H2 & H3). simpl in H2.
      repeat split; auto; try (simpl; lia).
      intros [|j] Hj.
      * exists b, q. simpl.
        replace (ticks w + 0 + 1)%nat with (S (ticks w)) by lia. auto.
      * apply (passed_over_cons env pool b q). apply H3. simpl in Hj. lia.
    + rewrite (GetAvailableProxy_range_nil_deref _ _ _ _ _ Hq) in H. discriminate H.
Qed.

Lemma GetAvailableProxy_range_returns env pool ps w :
  Forall (fun a => is_Some (heap w !! a)) ps ->
  exists r w', GetAvailableProxy_range env pool ps w = (Val r, w').
Proof.
  revert w. induction ps as [|b rest IH]; intros w H.
  - eexists _, _. reflexivity.
  - inversion H as [|? ? [q Hq] Hrest]; subst.
    rewrite (GetAvailableProxy_range_cons _ _ _ _ _ _ Hq).
    destruct (usable env pool (S (ticks w)) q).
    + eexists _, _. reflexivity.
    + apply IH. exact Hrest.
Qed.

(** C3, as amended: a proxy that [GetAvailableProxy] returns is a proxy of
    the pool that is alive and was idle for strictly more than [RateLimit]
    seconds at a reading of the clock taken during the call, hence never
    one idle for [RateLimit] seconds or less; the heap is as before, so
    these are its fields at the return too, and it is still past its
    cooldown at any reading that is not earlier. *)
Theorem GetAvailableProxy_past_RateLimit env pool w a err w' :
  GetAvailableProxy env pool w = (Val (Some a, err), w') ->
  exists q k,
    a ∈ proxies pool /\ heap w !! a = Some q /\ heap w' !! a = Some q /\
    Alive q = true /\ (ticks w <= k < ticks w')%nat /\
    RateLimit pool * time_Second < idle env k q /\
    ~ idle env k q <= RateLimit pool * time_Second /\
    (forall k', wall env k <= wall env k' ->
       RateLimit pool * time_Second < idle env k' q).
Proof.
  intros H. unfold GetAvailableProxy in H.
  destruct (GetAvailableProxy_range_some _ _ _ _ _ _ _ H)
    as (i & q & Hi & Hq & Hu & _ & Ht & _).
  destruct (GetAvailableProxy_range_retests env pool (proxies pool) w)
    as (l & Hh & _). rewrite H in Hh. simpl in Hh.
  unfold usable in Hu. apply andb_true_iff in Hu. destruct Hu as [Hidle Halive].
  apply float64_gt_Seconds in Hidle.
  exists q, (ticks w + 2 * i + 1)%nat.
  split; [eapply list_elem_of_lookup_2; eauto|].
  split; [exact Hq|]. split; [rewrite Hh; exact Hq|].
  split; [exact Halive|]. split; [lia|]. split; [exact Hidle|].
  split; [lia|].
  intros k' Hk'. unfold idle in *.
  pose proof (time_Sub_mono _ _ (lastRequest q) Hk'). lia.
Qed.



(** ** [ProxyPool.LoadProxies] *)

Lemma strings_Split_nonempty s sep : strings_Split s sep <> [].
Proof.
  destruct s as [|c s]; simpl; [discriminate|].
  destruct (Ascii.eqb c sep); [discriminate|].
  destruct (strings_Split s sep); discriminate.
Qed.

Lemma candidate_fields text : is_Some (candidate text) <-> (2 <= fields text)%nat.
Proof.
  unfold candidate, fields.
  destruct (strings_Split text ":") as [|ip_ [|port_text l]]; simpl.
  - split; [intros [x Hx]; discriminate | lia].
  - split; [intros [x Hx]; discriminate | lia].
  - split; [lia | eauto].
Qed.

Lemma candidate_one_field text : candidate text = None <-> fields text = 1%nat.
Proof.
  unfold candidate, fields.
  pose proof (strings_Split_nonempty text ":") as Hne.
  destruct (strings_Split text ":") as [|ip_ [|port_text l]]; simpl.
  - congruence.
  - split; auto.
  - split; [discriminate | lia].
Qed.

Lemma wellformed_candidates texts :
  Forall (fun text => (2 <= fields text)%nat) texts ->
  Forall (fun text => is_Some (candidate text)) texts.
Proof.
  intros H. eapply Forall_impl; [exact H|]. intros text. apply candidate_fields.
Qed.

Lemma LoadProxies_scan_cons pool text rest ps wg w p0 :
  candidate text = Some p0 ->
  LoadProxies_scan pool (text :: rest) ps wg w =
    LoadProxies_scan pool rest (ps ++ [length (heap w)])
      (wg ++ [GoCreate (length (heap w)) (TestURL pool)]) (after_line pool p0 w).
Proof.
  unfold candidate. intros H. cbn [LoadProxies_scan].
  destruct (strings_Split text ":") as [|ip_ [|port_text l]]; try discriminate H.
  inversion H; subst; clear H.
  unfold index, mbind, M_bind, mret, M_ret, wg_Add_go, new, emit. simpl.
  destruct (strconv_Atoi port_text) as [n e]. simpl.
  unfold after_line. rewrite <- app_assoc. reflexivity.
Qed.

Lemma LoadProxies_scan_short pool text rest ps wg w :
  candidate text = None ->
  LoadProxies_scan pool (text :: rest) ps wg w = (Panic index_out_of_range, w).
Proof.
  unfold candidate. intros H. cbn [LoadProxies_scan].
  pose proof (strings_Split_nonempty text ":") as Hne.
  destruct (strings_Split text ":") as [|ip_ [|port_text l]];
    [congruence | | discriminate H].
  reflexivity.
Qed.

Lemma LoadProxies_scan_wellformed pool texts ps wg w :
  Forall (fun text => is_Some (candidate text)) texts ->
  exists w',
    LoadProxies_scan pool texts ps wg w =
      (Val (ps ++ seq (length (heap w)) (length texts),
            wg ++ map (fun a => GoCreate a (TestURL pool))
                      (seq (length (heap w)) (length texts))), w') /\
    heap w' = heap w ++ candidates texts /\
    length (candidates texts) = length texts /\
    ticks w' = ticks w /\ requests w' = requests w /\ ready w' = ready w.
Proof.
  revert ps wg w. induction texts as [|text rest IH]; intros ps wg w H.
  - exists w. simpl. rewrite !app_nil_r. repeat split; reflexivity.
  - inversion H as [|? ? [p0 Hp0] Hrest]; subst.
    rewrite (LoadProxies_scan_cons _ _ _ _ _ _ _ Hp0).
    destruct (IH (ps ++ [length (heap w)])
                 (wg ++ [GoCreate (length (heap w)) (TestURL pool)])
                 (after_line pool p0 w) Hrest) as (w' & E & H1 & H2 & H3 & H4 & H5).
    exists w'. simpl in *. rewrite length_app in E. simpl in E.
    replace (length (heap w) + 1)%nat with (S (length (heap w))) in E by lia.
    rewrite E, <- !app_assoc. unfold candidates in *. simpl. rewrite Hp0. simpl.
    rewrite H1, <- app_assoc. simpl. repeat split; auto.
Qed.

Lemma LoadProxies_scan_malformed pool pre bad post ps wg w :
  Forall (fun text => is_Some (candidate text)) pre ->
  candidate bad = None ->
  exists w',
    LoadProxies_scan pool (pre ++ bad :: post) ps wg w =
      (Panic index_out_of_range, w').
Proof.
  revert ps wg w. induction pre as [|text rest IH]; intros ps wg w H Hbad.
  - exists w. apply LoadProxies_scan_short. exact Hbad.
  - inversion H as [|? ? [p0 Hp0] Hrest]; subst. rewrite <- app_comm_cons.
    rewrite (LoadProxies_scan_cons _ _ _ _ _ _ _ Hp0).
    apply IH; auto.
Qed.

Lemma wg_Wait_Creates env testURL addrs w :
  NoDup addrs ->
  Forall (fun a => is_Some (heap w !! a)) addrs ->
  exists w',
    wg_Wait env (map (fun a => GoCreate a testURL) addrs) w = (Val tt, w') /\
    length (heap w') = length (heap w) /\ ready w' = ready w /\
    (requests w <= requests w')%nat /\
    (forall b, b ∉ addrs -> heap w' !! b = heap w !! b) /\
    (forall a p, a ∈ addrs -> heap w !! a = Some p ->
       exists p' n,
         heap w' !! a = Some p' /\ ip p' = ip p /\ port p' = port p /\
         (requests w <= n)%nat /\ Alive p' = negotiated env n testURL p /\
         is_Some (client p')).
Proof.
  revert w. induction addrs as [|a rest IH]; intros w Hnd Hv.
  - exists w. simpl. repeat split; auto. intros a p Ha. inversion Ha.
  - apply NoDup_cons in Hnd. destruct Hnd as [Hna Hnd].
    inversion Hv as [|? ? [p Hp] Hrest]; subst.
    destruct (Proxy_Create_outcome env a testURL w p Hp)
      as (w1 & p1 & E1 & Hh1 & Hy1 & Hn1 & _ & Hi1 & Hpo1 & _ & _ & _ & Hc1 & Ha1).
    assert (Forall (fun a => is_Some (heap w1 !! a)) rest) as Hv1.
    { eapply Forall_impl; [exact Hrest|]. simpl. intros b [q Hq].
      rewrite Hh1. destruct (decide (a = b)) as [->|Hne].
      - eauto using lookup_store.
      - rewrite list_lookup_insert_ne by exact Hne. eauto. }
    destruct (IH w1 Hnd Hv1) as (w' & E & Hl & Hy & Hn & Hframe & Hall).
    exists w'. cbn [map wg_Wait run]. unfold mbind, M_bind. rewrite E1, E.
    split; [reflexivity|].
    split; [rewrite Hl, Hh1; apply length_insert|].
    split; [congruence|]. split; [lia|]. split.
    + intros b Hb. apply not_elem_of_cons in Hb. destruct Hb as [Hba Hb].
      rewrite (Hframe b Hb), Hh1. apply list_lookup_insert_ne. congruence.
    + intros b q Hb Hq. apply elem_of_cons in Hb. destruct Hb as [->|Hb].
      * rewrite Hp in Hq. inversion Hq; subst q.
        exists p1, (requests w). rewrite (Hframe a Hna), Hh1.
        split; [eauto using lookup_store|].
        repeat split; auto; rewrite Hc1; eauto.
      * assert (a <> b) as Hne by (intros ->; contradiction).
        assert (heap w1 !! b = Some q) as Hq1
          by (rewrite Hh1, list_lookup_insert_ne by exact Hne; exact Hq).
        destruct (Hall b q Hb Hq1) as (p' & n & H1 & H2 & H3 & H4 & H5 & H6).
        exists p', n. repeat split; auto. lia.
Qed.

Lemma LoadProxies_keep_eq pool ps w :
  Forall (fun a => is_Some (heap w !! a)) ps ->
  LoadProxies_keep pool ps w =
    (Val (mkProxyPool (proxies pool ++ List.filter (alive_in (heap w)) ps)
                      (TestURL pool) (RateLimit pool) (RetestDelay pool)
                      (AliveCount pool) (AvailableCount pool)), w).
Proof.
  revert pool. induction ps as [|a rest IH]; intros pool Hv.
  - simpl. rewrite app_nil_r. destruct pool; reflexivity.
  - inversion Hv as [|? ? [q Hq] Hrest]; subst.
    cbn [LoadProxies_keep List.filter]. unfold mbind, M_bind, field, alive_in at 1.
    rewrite Hq. destruct (Alive q).
    + rewrite (IH _ Hrest). simpl. rewrite <- app_assoc. reflexivity.
    + apply IH. exact Hrest.
Qed.

Lemma UpdateCounts_range_returns env pool ps alive available w :
  Forall (fun a => is_Some (heap w !! a)) ps ->
  exists counts w',
    UpdateCounts_range env pool ps alive available w = (Val counts, w') /\
    heap w' = heap w /\ requests w' = requests w /\ ready w' = ready w /\
    trace w' = trace w.
Proof.
  revert alive available w. induction ps as [|a rest IH]; intros alive available w Hv.
  - eexists _, _. split; [reflexivity|]. auto.
  - inversion Hv as [|? ? [q Hq] Hrest]; subst.
    cbn [UpdateCounts_range].
    unfold mbind, M_bind, field, time_Since, time_Now, mret, M_ret.
    rewrite Hq. destruct (Alive q); [|apply IH; exact Hrest].
    rewrite Hq. simpl.
    destruct (float64_gt _ _);
      match goal with |- context [UpdateCounts_range env pool rest ?x ?y ?w0] =>
        destruct (IH x y w0 Hrest) as (c & w' & E & H1 & H2 & H3 & H4)
      end; exists c, w'; auto.
Qed.

Lemma UpdateCounts_returns env pool w :
  Forall (fun a => is_Some (heap w !! a)) (proxies pool) ->
  exists pool' w',
    UpdateCounts env pool w = (Val pool', w') /\
    proxies pool' = proxies pool /\ TestURL pool' = TestURL pool /\
    RateLimit pool' = RateLimit pool /\ RetestDelay pool' = RetestDelay pool /\
    heap w' = heap w /\ requests w' = requests w /\ ready w' = ready w /\
    trace w' = trace w.
Proof.
  intros Hv. unfold UpdateCounts, mbind, M_bind, mret, M_ret.
  destruct (UpdateCounts_range_returns env pool (proxies pool) 0 0 w Hv)
    as ([alive available] & w' & E & H).
  rewrite E. eexists _, w'. split; [reflexivity|]. simpl. tauto.
Qed.

Lemma candidates_lookup texts i text :
  Forall (fun text => is_Some (candidate text)) texts ->
  texts !! i = Some text -> candidates texts !! i = candidate text.
Proof.
  revert i. induction texts as [|t rest IH]; intros i Hwf Hi; [inversion Hi|].
  inversion Hwf as [|? ? [p0 Hp0] Hrest]; subst.
  unfold candidates in *. simpl. rewrite Hp0.
  destruct i as [|i]; simpl in *.
  - inversion Hi; subst. symmetry. exact Hp0.
  - apply IH; auto.
Qed.

Lemma valid_lt (h : list Proxy) (a : addr) : is_Some (h !! a) <-> (a < length h)%nat.
Proof. apply lookup_lt_is_Some. Qed.

Lemma LoadProxies_outcome env pool path texts scanErr w :
  fs env path = File texts scanErr ->
  Forall (fun text => is_Some (candidate text)) texts ->
  Forall (fun a => is_Some (heap w !! a)) (proxies pool) ->
  exists pool' w',
    LoadProxies env pool path w = (Val (pool', scanErr), w') /\
    proxies pool' =
      proxies pool ++
        List.filter (alive_in (heap w')) (seq (length (heap w)) (length texts)) /\
    TestURL pool' = TestURL pool /\ RateLimit pool' = RateLimit pool /\
    RetestDelay pool' = RetestDelay pool /\
    length (heap w') = (length (heap w) + length texts)%nat /\
    (forall b, (b < length (heap w))%nat -> heap w' !! b = heap w !! b) /\
    ready w' = ready w /\
    (forall i text, texts !! i = Some text ->
       exists p0 p' n,
         candidate text = Some p0 /\
         heap w' !! (length (heap w) + i)%nat = Some p' /\
         ip p' = ip p0 /\ port p' = port p0 /\ (requests w <= n)%nat /\
         Alive p' = negotiated env n (TestURL pool) p0 /\ is_Some (client p')).
Proof.
  intros Hfs Hwf Hv. unfold LoadProxies. rewrite Hfs.
  destruct (LoadProxies_scan_wellformed pool texts [] [] w Hwf)
    as (w1 & E1 & Hh1 & Hlen & Ht1 & Hn1 & Hy1).
  set (n0 := length (heap w)) in *. set (k := length texts) in *.
  assert (length (heap w1) = (n0 + k)%nat) as Hl1
    by (rewrite Hh1, length_app, Hlen; reflexivity).
  assert (Forall (fun a => is_Some (heap w1 !! a)) (seq n0 k)) as Hv1.
  { apply Forall_forall. intros a Ha. apply valid_lt.
    apply list_elem_of_In, in_seq in Ha. lia. }
  destruct (wg_Wait_Creates env (TestURL pool) (seq n0 k) w1 (NoDup_seq n0 k) Hv1)
    as (w2 & E2 & Hl2 & Hy2 & Hn2 & Hframe & Hall).
  assert (Forall (fun a => is_Some (heap w2 !! a)) (seq n0 k)) as Hv2.
  { eapply Forall_impl; [exact Hv1|]. simpl. intros a Ha.
    apply valid_lt. apply valid_lt in Ha. lia. }
  assert (forall b, (b < n0)%nat -> heap w2 !! b = heap w !! b) as Hold.
  { intros b Hb. rewrite Hframe.
    - rewrite Hh1. apply lookup_app_l. exact Hb.
    - intros Hin. apply list_elem_of_In, in_seq in Hin. lia. }
  assert (forall i text, texts !! i = Some text ->
       exists p0 p' n,
         candidate text = Some p0 /\
         heap w2 !! (n0 + i)%nat = Some p' /\
         ip p' = ip p0 /\ port p' = port p0 /\ (requests w <= n)%nat /\
         Alive p' = negotiated env n (TestURL pool) p0 /\ is_Some (client p')) as Hcand.
  { intros i text Hi.
    assert (i < k)%nat as Hik by (eapply lookup_lt_Some; eauto).
    destruct (proj1 (Forall_forall _ _) Hwf text) as [p0 Hp0].
    { eapply list_elem_of_lookup_2; eauto. }
    assert (heap w1 !! (n0 + i)%nat = Some p0) as Hq.
    { rewrite Hh1, lookup_app_r by (fold n0; lia).
      fold n0. replace (n0 + i - n0)%nat with i by lia.
      rewrite (candidates_lookup texts i text Hwf Hi). exact Hp0. }
    destruct (Hall (n0 + i)%nat p0) as (p' & n & H1 & H2 & H3 & H4 & H5 & H6); auto.
    { apply list_elem_of_In, in_seq. lia. }
    exists p0, p', n. repeat split; auto. lia. }
  unfold mbind at 1, M_bind at 1. rewrite E1. simpl app.
  unfold mbind at 1, M_bind at 1. rewrite E2.
  unfold mbind at 1, M_bind at 1. rewrite (LoadProxies_keep_eq pool _ w2 Hv2).
  cbv beta iota.
  destruct scanErr as [err|].
  - eexists _, w2. split; [reflexivity|]. simpl.
    repeat split; auto; try lia. congruence.
  - match goal with |- context [UpdateCounts env ?pool1] =>
      destruct (UpdateCounts_returns env pool1 w2)
        as (pool2 & w3 & E3 & Hp3 & Hu3 & Hr3 & Hd3 & Hh3 & Hn3 & Hy3 & Htr3)
    end.
    { simpl. apply Forall_app. split.
      - eapply Forall_impl; [exact Hv|]. simpl. intros a Ha.
        apply valid_lt. apply valid_lt in Ha. lia.
      - apply Forall_forall. intros a Ha.
        apply list_elem_of_In, filter_In in Ha. destruct Ha as [Ha _].
        apply in_seq in Ha. apply valid_lt. lia. }
    unfold mbind, M_bind, mret, M_ret. rewrite E3.
    exists pool2, w3. split; [reflexivity|]. simpl in *. rewrite Hh3.
    repeat split; auto; try lia; try congruence.
Qed.

(** C6: a line of a single field (no colon) makes [LoadProxies] panic at
    [line[1]], whatever came before it and whatever follows: the load is
    aborted, nothing is reported for the line and the pool gets none of
    the proxies of the lines before it. *)
Theorem LoadProxies_panics_on_single_field env pool path pre bad post scanErr w :
  fs env path = File (pre ++ bad :: post) scanErr ->
  Forall (fun text => (2 <= fields text)%nat) pre ->
  fields bad = 1%nat ->
  exists w',
    LoadProxies env pool path w = (Panic index_out_of_range, w') /\
    forall r, fst (LoadProxies env pool path w) <> Val r.
Proof.
  intros Hfs Hpre Hbad. unfold LoadProxies. rewrite Hfs.
  destruct (LoadProxies_scan_malformed pool pre bad post [] [] w
              (wellformed_candidates pre Hpre)
              (proj2 (candidate_one_field bad) Hbad)) as (w' & E).
  exists w'. unfold mbind, M_bind. rewrite E. split; [reflexivity|].
  intros r. discriminate.
Qed.

(** C7, as amended: when the source cannot be opened [LoadProxies] logs
    the error and exits the process with status 1, it does not return;
    when every line has its two fields it returns, and the error it
    returns is the one the scanner stopped on (nil at the end of the
    file); it returns no other error. *)
Theorem LoadProxies_source_failure env pool path w :
  Forall (fun a => is_Some (heap w !! a)) (proxies pool) ->
  match fs env path with
  | OpenError err =>
      LoadProxies env pool path w =
        (Exit 1, mkWorld (heap w) (ticks w) (requests w) (ready w)
                         (trace w ++ [EvLog err]))
  | File texts scanErr =>
      (Forall (fun text => (2 <= fields text)%nat) texts ->
       exists pool' w', LoadProxies env pool path w = (Val (pool', scanErr), w')) /\
      (forall pool' err w',
         LoadProxies env pool path w = (Val (pool', err), w') -> err = scanErr)
  end.
Proof.
  intros Hv. destruct (fs env path) as [err | texts scanErr] eqn:Hfs.
  - unfold LoadProxies. rewrite Hfs. reflexivity.
  - split.
    + intros Hwf.
      destruct (LoadProxies_outcome env pool path texts scanErr w Hfs
                  (wellformed_candidates texts Hwf) Hv) as (pool' & w' & E & _).
      eauto.
    + intros pool' err w'. unfold LoadProxies. rewrite Hfs.
      unfold mbind, M_bind, mret, M_ret.
      destruct (LoadProxies_scan pool texts [] [] w) as [[[ps wg]| |] w1];
        try discriminate.
      destruct (wg_Wait env wg w1) as [[[]| |] w2]; try discriminate.
      destruct (LoadProxies_keep pool ps w2) as [[pool1| |] w3]; try discriminate.
      destruct scanErr as [e|]; [congruence|].
      destruct (UpdateCounts env pool1 w3) as [[pool2| |] w4]; congruence.
Qed.

(** C8: when every line has its two fields, [LoadProxies] returns and the
    pool then holds, after what it held before, exactly the candidates
    that are alive after the fan-in, in the order of their lines.  The
    candidate of a line is alive exactly when its negotiation succeeded
    (and has its client bound by then), so a candidate that failed both
    SOCKS versions is not in the pool.  In
    particular a fresh pool loaded from one failing and one succeeding
    line, in either order, holds one proxy, the succeeding one. *)
Theorem LoadProxies_keeps_negotiated env pool path texts scanErr w :
  fs env path = File texts scanErr ->
  Forall (fun text => (2 <= fields text)%nat) texts ->
  Forall (fun a => is_Some (heap w !! a)) (proxies pool) ->
  exists pool' w',
    LoadProxies env pool path w = (Val (pool', scanErr), w') /\
    proxies pool' =
      proxies pool ++
        List.filter (alive_in (heap w')) (seq (length (heap w)) (length texts)) /\
    (forall i text, texts !! i = Some text ->
       exists p0 p' n,
         candidate text = Some p0 /\
         heap w' !! (length (heap w) + i)%nat = Some p' /\
         ip p' = ip p0 /\ port p' = port p0 /\ (requests w <= n)%nat /\
         Alive p' = negotiated env n (TestURL pool) p0 /\
         is_Some (client p')) /\
    (forall bad good pb pg,
       proxies pool = [] ->
       texts = [bad; good] \/ texts = [good; bad] ->
       candidate bad = Some pb -> candidate good = Some pg ->
       (forall n, negotiated env n (TestURL pool) pb = false) ->
       (forall n, negotiated env n (TestURL pool) pg = true) ->
       exists a p',
         proxies pool' = [a] /\ heap w' !! a = Some p' /\
         ip p' = ip pg /\ port p' = port pg /\ Alive p' = true).
Proof.
  intros Hfs Hwf Hv.
  destruct (LoadProxies_outcome env pool path texts scanErr w Hfs
              (wellformed_candidates texts Hwf) Hv)
    as (pool' & w' & E & Hps & _ & _ & _ & _ & _ & _ & Hcand).
  exists pool', w'. split; [exact E|]. split; [exact Hps|]. split.
  - intros i text Hi.
    destruct (Hcand i text Hi) as (p0 & p' & n & H1 & H2 & H3 & H4 & H5 & H6 & H7).
    exists p0, p', n. repeat split; auto.
  - intros bad good pb pg Hnil Horder Hb Hg Hfail Hsucc.
    rewrite Hps, Hnil. simpl app.
    destruct Horder as [-> | ->]; simpl length; cbn [seq List.filter].
    + destruct (Hcand 0%nat bad eq_refl) as (p0 & p' & n & H1 & H2 & _ & _ & _ & H6 & _).
      destruct (Hcand 1%nat good eq_refl) as (q0 & q' & m & G1 & G2 & G3 & G4 & _ & G6 & _).
      rewrite Hb in H1. inversion H1; subst p0.
      rewrite Hg in G1. inversion G1; subst q0.
      rewrite Hfail in H6. rewrite Hsucc in G6.
      replace (length (heap w) + 0)%nat with (length (heap w)) in H2 by lia.
      replace (length (heap w) + 1)%nat with (S (length (heap w))) in G2 by lia.
      exists (S (length (heap w))), q'.
      unfold alive_in. rewrite H2, G2, H6, G6. repeat split; auto.
    + destruct (Hcand 0%nat good eq_refl) as (q0 & q' & m & G1 & G2 & G3 & G4 & _ & G6 & _).
      destruct (Hcand 1%nat bad eq_refl) as (p0 & p' & n & H1 & H2 & _ & _ & _ & H6 & _).
      rewrite Hb in H1. inversion H1; subst p0.
      rewrite Hg in G1. inversion G1; subst q0.
      rewrite Hfail in H6. rewrite Hsucc in G6.
      replace (length (heap w) + 0)%nat with (length (heap w)) in G2 by lia.
      replace (length (heap w) + 1)%nat with (S (length (heap w))) in H2 by lia.
      exists (length (heap w)), q'.
      unfold alive_in. rewrite H2, G2, H6, G6. repeat split; auto.
Qed.


(** ** Decimal numerals *)

Lemma digits_string_of_uint u acc :
  digits (NilEmpty.string_of_uint u) acc = Some (horner u acc).
Proof.
  revert acc. induction u as [| u IHu | u IHu | u IHu | u IHu | u IHu | u IHu | u IHu | u IHu | u IHu | u IHu]; intros acc;
    cbn [digits NilEmpty.string_of_uint horner]; try reflexivity;
    match goal with |- context [digit ?c] =>
      let v := eval vm_compute in (digit c) in change (digit c) with v
    end; cbv iota beta; rewrite IHu; do 2 f_equal; lia.
Qed.

Lemma of_uint_acc_horner u acc :
  Z.pos (Pos.of_uint_acc u acc) = horner u (Z.pos acc).
Proof.
  revert acc. induction u as [| u IHu | u IHu | u IHu | u IHu | u IHu | u IHu | u IHu | u IHu | u IHu | u IHu]; intros acc; simpl; try reflexivity;
    rewrite IHu; f_equal; lia.
Qed.

Lemma of_uint_horner u : Z.of_N (Pos.of_uint u) = horner u 0.
Proof.
  induction u as [| u IHu | u IHu | u IHu | u IHu | u IHu | u IHu | u IHu | u IHu | u IHu | u IHu]; simpl; try reflexivity; try exact IHu;
    rewrite of_uint_acc_horner; reflexivity.
Qed.

Lemma string_of_uint_unsigned u :
  match NilEmpty.string_of_uint u with
  | String c _ => c <> "-"%char /\ c <> "+"%char
  | EmptyString => u = Decimal.Nil
  end.
Proof. destruct u; simpl; try reflexivity; split; discriminate. Qed.

Lemma string_of_uint_nonnil u :
  u <> Decimal.Nil -> NilZero.string_of_uint u = NilEmpty.string_of_uint u.
Proof. destruct u; [congruence | reflexivity ..]. Qed.

Lemma to_uint_nonnil p : Pos.to_uint p <> Decimal.Nil.
Proof.
  intros H. pose proof (DecimalPos.Unsigned.of_to p) as E.
  rewrite H in E. discriminate E.
Qed.

(** [Atoi] reads back what [%d] prints, for every [int]. *)
Lemma strconv_Atoi_fmt_d n :
  - 2 ^ 63 <= n <= 2 ^ 63 - 1 -> strconv_Atoi (fmt_d n) = (n, None).
Proof.
  intros Hn. unfold fmt_d, strconv_Atoi.
  destruct n as [|p|p]; [reflexivity| |].
  - simpl Z.to_int. simpl NilZero.string_of_int.
    rewrite (string_of_uint_nonnil _ (to_uint_nonnil p)).
    pose proof (string_of_uint_unsigned (Pos.to_uint p)) as Hs.
    pose proof (digits_string_of_uint (Pos.to_uint p) 0) as Hd.
    pose proof (of_uint_horner (Pos.to_uint p)) as Hv.
    rewrite DecimalPos.Unsigned.of_to in Hv. simpl in Hv.
    destruct (NilEmpty.string_of_uint (Pos.to_uint p)) as [|c s] eqn:E.
    + exfalso. exact (to_uint_nonnil p Hs).
    + destruct Hs as [Hm Hp].
      assert ((if Ascii.eqb c "-" then true else false) = false) as Em
        by (destruct (Ascii.eqb_spec c "-"); congruence).
      destruct c as [[] [] [] [] [] [] [] []]; try congruence;
        rewrite Hd, <- Hv;
        destruct (Z.leb_spec (2 ^ 63) (Z.pos p)); try lia; reflexivity.
  - simpl Z.to_int. simpl NilZero.string_of_int.
    rewrite (string_of_uint_nonnil _ (to_uint_nonnil p)).
    pose proof (digits_string_of_uint (Pos.to_uint p) 0) as Hd.
    pose proof (of_uint_horner (Pos.to_uint p)) as Hv.
    rewrite DecimalPos.Unsigned.of_to in Hv. simpl in Hv.
    pose proof (string_of_uint_unsigned (Pos.to_uint p)) as Hs.
    destruct (NilEmpty.string_of_uint (Pos.to_uint p)) as [|c s] eqn:E.
    + exfalso. exact (to_uint_nonnil p Hs).
    + rewrite Hd, <- Hv.
      destruct (Z.ltb_spec (2 ^ 63) (Z.pos p)); try lia. reflexivity.
Qed.


(** ** Lines and URLs *)

Lemma digit_not_colon c d : digit c = Some d -> Ascii.eqb c ":" = false.
Proof.
  destruct c as [[] [] [] [] [] [] [] []]; vm_compute; congruence.
Qed.

Lemma digit_nonneg c d : digit c = Some d -> 0 <= d.
Proof.
  unfold digit. destruct (_ && _) eqn:E; [|discriminate].
  intros H. inversion H; subst. apply andb_true_iff in E. lia.
Qed.

Lemma strings_Split_head c s :
  Ascii.eqb c ":" = false -> strings_Split s ":" = [s] ->
  strings_Split (String c s) ":" = [String c s].
Proof. intros Hc Hs. simpl. rewrite Hc, Hs. reflexivity. Qed.

Lemma digits_one_field s acc v :
  digits s acc = Some v -> strings_Split s ":" = [s].
Proof.
  revert acc. induction s as [|c s IH]; intros acc H; [reflexivity|].
  simpl in H. destruct (digit c) as [d|] eqn:Ed; [|discriminate].
  apply strings_Split_head; eauto using digit_not_colon.
Qed.

Lemma digits_nonneg s acc v : digits s acc = Some v -> 0 <= acc -> 0 <= v.
Proof.
  revert acc. induction s as [|c s IH]; intros acc H Hacc.
  - inversion H; subst. exact Hacc.
  - simpl in H. destruct (digit c) as [d|] eqn:Ed; [|discriminate].
    apply (IH _ H). pose proof (digit_nonneg _ _ Ed). lia.
Qed.

Lemma fmt_d_one_field n : strings_Split (fmt_d n) ":" = [fmt_d n].
Proof.
  unfold fmt_d. destruct n as [|p|p]; [reflexivity| |];
    simpl Z.to_int; simpl NilZero.string_of_int;
    rewrite (string_of_uint_nonnil _ (to_uint_nonnil p)).
  - exact (digits_one_field _ 0 _ (digits_string_of_uint _ 0)).
  - apply strings_Split_head; [reflexivity|].
    exact (digits_one_field _ 0 _ (digits_string_of_uint _ 0)).
Qed.

Lemma fields_one s : fields s = 1%nat -> strings_Split s ":" = [s].
Proof.
  unfold fields. induction s as [|c s IH]; [reflexivity|]. simpl.
  pose proof (strings_Split_nonempty s ":") as Hne.
  destruct (Ascii.eqb c ":").
  - destruct (strings_Split s ":"); simpl; [congruence | lia].
  - destruct (strings_Split s ":") as [|f [|g l]] eqn:E; simpl;
      [congruence | | lia].
    intros _. injection (IH eq_refl) as ->. reflexivity.
Qed.

Lemma strings_Split_app host rest :
  fields host = 1%nat ->
  strings_Split (host +:+ ":" +:+ rest) ":" = host :: strings_Split rest ":".
Proof.
  unfold fields. induction host as [|c s IH]; intros H; [reflexivity|].
  simpl in H |- *.
  pose proof (strings_Split_nonempty s ":") as Hne.
  destruct (Ascii.eqb c ":").
  - destruct (strings_Split s ":"); simpl in H; [congruence | lia].
  - destruct (strings_Split s ":") as [|f [|g l]] eqn:E; simpl in H;
      [congruence | | lia].
    rewrite (IH eq_refl). reflexivity.
Qed.

Lemma strings_Split_two s f g l :
  strings_Split s ":" = f :: g :: l ->
  exists rest,
    s = f +:+ ":" +:+ rest /\ fields f = 1%nat /\
    strings_Split rest ":" = g :: l.
Proof.
  revert f. induction s as [|c s IH]; intros f H; [discriminate|].
  simpl in H. destruct (Ascii.eqb_spec c ":") as [->|Hc].
  - inversion H; subst. exists s. repeat split; auto.
  - destruct (strings_Split s ":") as [|f' fs] eqn:E; [discriminate|].
    inversion H; subst.
    destruct (IH f' eq_refl) as (rest & Hs & Hf & Hr).
    exists rest. split; [rewrite Hs at 1; reflexivity|]. split; [|exact Hr].
    unfold fields. rewrite (strings_Split_head c f'); [reflexivity| |].
    + apply Ascii.eqb_neq. exact Hc.
    + apply fields_one. exact Hf.
Qed.

Lemma strconv_Atoi_steps s :
  strconv_Atoi s = Atoi_signed (fst (unsign s)) (snd (unsign s)).
Proof. unfold strconv_Atoi, unsign. destruct s as [|c s]; [reflexivity|].
  destruct c as [[] [] [] [] [] [] [] []]; reflexivity.
Qed.

Lemma Atoi_signed_range neg body :
  - 2 ^ 63 <= fst (Atoi_signed neg body) <= 2 ^ 63 - 1.
Proof.
  unfold Atoi_signed. destruct body as [|c b]; [simpl; lia|].
  destruct (digits (String c b) 0) as [un|] eqn:E; [|simpl; lia].
  pose proof (digits_nonneg _ _ _ E (Z.le_refl 0)).
  destruct neg.
  - destruct (Z.ltb_spec (2 ^ 63) un); simpl; lia.
  - destruct (Z.leb_spec (2 ^ 63) un); simpl; lia.
Qed.

Lemma strconv_Atoi_range s :
  - 2 ^ 63 <= fst (strconv_Atoi s) <= 2 ^ 63 - 1.
Proof. rewrite strconv_Atoi_steps. apply Atoi_signed_range. Qed.

Lemma strconv_Atoi_syntax s :
  snd (strconv_Atoi s) = Some ErrSyntax -> fst (strconv_Atoi s) = 0.
Proof.
  rewrite strconv_Atoi_steps. unfold Atoi_signed.
  destruct (snd (unsign s)) as [|c b]; [reflexivity|].
  destruct (digits (String c b) 0) as [un|]; [|reflexivity].
  destruct (fst (unsign s)).
  - destruct (2 ^ 63 <? un); simpl; discriminate.
  - destruct (2 ^ 63 <=? un); simpl; discriminate.
Qed.

(** X1: a line made of a host without colon, a colon and a port printed in
    decimal is read back as that host and that port, and the URL [Create]
    composes for it is the scheme followed by the line itself. *)
Theorem candidate_of_printed_line host n version :
  fields host = 1%nat -> - 2 ^ 63 <= n <= 2 ^ 63 - 1 ->
  exists p0,
    candidate (host +:+ ":" +:+ fmt_d n) = Some p0 /\
    ip p0 = host /\ port p0 = n /\
    socks_URL version p0 =
      "socks" +:+ fmt_d version +:+ "://" +:+ (host +:+ ":" +:+ fmt_d n).
Proof.
  intros Hhost Hn. unfold candidate.
  rewrite (strings_Split_app host (fmt_d n) Hhost), fmt_d_one_field.
  rewrite (strconv_Atoi_fmt_d n Hn). simpl fst.
  eexists. split; [reflexivity|]. repeat split.
Qed.

(** X2: the host of a candidate is the part of its line before the first
    colon, so it holds no colon itself, and its port is an [int]: what
    [Atoi] makes of the text up to the next colon, which is 0 when [Atoi]
    reports a syntax error. *)
Theorem candidate_splits_at_first_colon text p0 :
  candidate text = Some p0 ->
  exists rest port_text more,
    text = ip p0 +:+ ":" +:+ rest /\ fields (ip p0) = 1%nat /\
    strings_Split rest ":" = port_text :: more /\
    port p0 = fst (strconv_Atoi port_text) /\
    - 2 ^ 63 <= port p0 <= 2 ^ 63 - 1 /\
    (snd (strconv_Atoi port_text) = Some ErrSyntax -> port p0 = 0).
Proof.
  unfold candidate. intros H.
  destruct (strings_Split text ":") as [|f [|g l]] eqn:E; try discriminate.
  inversion H; subst; clear H. simpl.
  destruct (strings_Split_two text f g l E) as (rest & Ht & Hf & Hr).
  exists rest, g, l. repeat split; auto; try apply strconv_Atoi_range.
  apply strconv_Atoi_syntax.
Qed.


(** ** What a fetch and a negotiation leave alone *)

Lemma Proxy_Get_nil_receiver env a url w :
  heap w !! a = None ->
  Proxy_Get env a url w =
    (Panic nil_deref,
     mkWorld (heap w) (S (ticks w)) (requests w) (ready w) (trace w)).
Proof.
  intros H. unfold Proxy_Get. unfold_M. rewrite H. reflexivity.
Qed.

Lemma lookup_store_ne (h : list Proxy) (a b : addr) (q : Proxy) :
  b <> a -> <[a := q]> h !! b = h !! b.
Proof. intros H. apply list_lookup_insert_ne. congruence. Qed.

(** X3: whatever [Get] ends in, it writes only [lastRequest] and [Alive] of
    the proxy it goes through: the URL, the address, the port and the
    client of that proxy stay, every other struct stays, no goroutine is
    started, the clock is read once and at most one request is issued. *)
Theorem Proxy_Get_frame env a url w p :
  heap w !! a = Some p ->
  exists o w' p',
    Proxy_Get env a url w = (o, w') /\ heap w' !! a = Some p' /\
    URL p' = URL p /\ protocol p' = protocol p /\ ip p' = ip p /\
    port p' = port p /\ dial p' = dial p /\ transport p' = transport p /\
    client p' = client p /\
    length (heap w') = length (heap w) /\
    (forall b, b <> a -> heap w' !! b = heap w !! b) /\
    ready w' = ready w /\ ticks w' = S (ticks w) /\
    (requests w <= requests w' <= S (requests w))%nat.
Proof.
  intros Hp. destruct (client p) as [c|] eqn:Hc.
  - rewrite (Proxy_Get_eq env a url w p c Hp Hc).
    eexists _, _, _. split; [reflexivity|].
    split; [eapply heap_after_Get; eauto|]. simpl.
    rewrite length_insert.
    repeat split; auto using lookup_store_ne; lia.
  - rewrite (Proxy_Get_nil_client env a url w p Hp Hc).
    eexists _, _, _. split; [reflexivity|].
    split; [simpl; eauto using lookup_store|]. simpl.
    rewrite length_insert.
    repeat split; auto using lookup_store_ne; lia.
Qed.

Lemma Proxy_Create_eq env a testURL w p :
  heap w !! a = Some p ->
  Proxy_Create env a testURL w = (Val tt, after_Create env a p testURL w).
Proof.
  intros Hp. unfold Proxy_Create, wg_Done, after_Create.
  unfold mbind at 1, M_bind at 1.
  rewrite (Create_range_cons env a testURL 5 [4] w p Hp).
  destruct (attempt_facts env 5 a p testURL w) as (Hh5 & _ & Hn5 & _).
  destruct (fetched (serve env (requests w) (socks_client 5 p) testURL));
    [reflexivity|].
  assert (heap (attempt env 5 a p testURL w) !! a = Some (tried env 5 p testURL w))
    as Hp5 by (rewrite Hh5; eauto using lookup_store).
  rewrite (Create_range_cons env a testURL 4 [] _ _ Hp5).
  destruct (fetched _); reflexivity.
Qed.

Lemma Proxy_Create_nil_receiver env a testURL w :
  heap w !! a = None -> Proxy_Create env a testURL w = (Panic nil_deref, w).
Proof.
  intros H. unfold Proxy_Create. cbn [Create_range].
  unfold mbind, M_bind, field. rewrite H. reflexivity.
Qed.

Lemma after_Create_facts env a p testURL w :
  let w' := after_Create env a p testURL w in
  let n := Create_cost env p testURL w in
  (1 <= n <= 2)%nat /\
  requests w' = (requests w + n)%nat /\ ticks w' = (ticks w + n)%nat /\
  ready w' = ready w /\ length (heap w') = length (heap w) /\
  (forall b, b <> a -> heap w' !! b = heap w !! b) /\
  exists p', heap w' = <[a := p']> (heap w) /\
             lastRequest p' = wall env (ticks w + n - 1)%nat.
Proof.
  unfold after_Create, Create_cost. cbn zeta.
  destruct (attempt_facts env 5 a p testURL w) as (Hh5 & Hy5 & Hn5 & Ht5 & _).
  destruct (fetched (serve env (requests w) (socks_client 5 p) testURL)).
  - rewrite Hh5, Hy5, Hn5, Ht5, length_insert.
    repeat split; auto using lookup_store_ne; try lia.
    eexists. split; [reflexivity|]. simpl. f_equal. lia.
  - set (p5 := tried env 5 p testURL w) in *.
    set (w5 := attempt env 5 a p testURL w) in *.
    destruct (attempt_facts env 4 a p5 testURL w5) as (Hh4 & Hy4 & Hn4 & Ht4 & _).
    rewrite Hh4, Hy4, Hn4, Ht4, Hh5, Hy5, Hn5, Ht5, list_insert_insert_eq,
      length_insert.
    repeat split; auto using lookup_store_ne; try lia.
    eexists. split; [reflexivity|].
    change (lastRequest (tried env 4 p5 testURL w5)) with (wall env (ticks w5)).
    rewrite Ht5. f_equal. lia.
Qed.

(** X4: [Create] always returns; it costs one test fetch and one reading of
    the clock when SOCKS5 answers and two of each otherwise, stamps the
    proxy with the last of these readings, writes to no other struct and
    starts no goroutine. *)
Theorem Proxy_Create_cost_and_frame env a testURL w p :
  heap w !! a = Some p ->
  exists w' p' n,
    Proxy_Create env a testURL w = (Val tt, w') /\
    heap w' !! a = Some p' /\
    n = Create_cost env p testURL w /\ (1 <= n <= 2)%nat /\
    requests w' = (requests w + n)%nat /\ ticks w' = (ticks w + n)%nat /\
    lastRequest p' = wall env (ticks w' - 1)%nat /\
    length (heap w') = length (heap w) /\
    (forall b, b <> a -> heap w' !! b = heap w !! b) /\
    ready w' = ready w.
Proof.
  intros Hp. rewrite (Proxy_Create_eq env a testURL w p Hp).
  destruct (after_Create_facts env a p testURL w)
    as (Hn & Hr & Ht & Hy & Hl & Hf & p' & Hh & Hs).
  exists (after_Create env a p testURL w), p', (Create_cost env p testURL w).
  split; [reflexivity|].
  split; [rewrite Hh; eauto using lookup_store|].
  rewrite Ht. repeat split; auto; try lia;
    rewrite Hs; f_equal; lia.
Qed.


(** ** [ProxyPool.UpdateCounts] *)

Lemma usable_mono env pool k k' q :
  wall env k <= wall env k' ->
  usable env pool k q = true -> usable env pool k' q = true.
Proof.
  unfold usable, idle. intros Hk H. apply andb_true_iff in H.
  destruct H as [Hi Ha]. apply andb_true_iff. split; [|exact Ha].
  apply float64_gt_Seconds. apply float64_gt_Seconds in Hi.
  pose proof (time_Sub_mono _ _ (lastRequest q) Hk). lia.
Qed.

Lemma UpdateCounts_range_counts env pool ps alive available w :
  Forall (fun a => is_Some (heap w !! a)) ps ->
  exists al av w',
    UpdateCounts_range env pool ps alive available w = (Val (al, av), w') /\
    heap w' = heap w /\ requests w' = requests w /\ ready w' = ready w /\
    trace w' = trace w /\
    al = alive + Z.of_nat (length (List.filter (alive_in (heap w)) ps)) /\
    ticks w' = (ticks w + length (List.filter (alive_in (heap w)) ps))%nat /\
    available <= av <= available + (al - alive) /\
    (available < av ->
     exists b q k, b ∈ ps /\ heap w !! b = Some q /\
                   usable env pool k q = true /\ (ticks w <= k < ticks w')%nat).
Proof.
  revert alive available w.
  induction ps as [|b rest IH]; intros alive available w Hv.
  - exists alive, available, w. simpl. repeat split; auto; lia.
  - inversion Hv as [|? ? [q Hq] Hrest]; subst.
    cbn [UpdateCounts_range List.filter].
    replace (alive_in (heap w) b) with (Alive q)
      by (unfold alive_in; rewrite Hq; reflexivity).
    unfold mbind, M_bind, field, time_Since, time_Now, mret, M_ret.
    rewrite Hq. cbn beta iota.
    destruct (Alive q) eqn:Ea.
    + rewrite Hq. unfold mbind, M_bind. cbn beta iota.
      set (w1 := mkWorld (heap w) (S (ticks w)) (requests w) (ready w) (trace w)).
      destruct (float64_gt (Seconds (time_Sub (wall env (ticks w)) (lastRequest q)))
                           (float64 (RateLimit pool))) eqn:Eg.
      * destruct (IH (alive + 1) (available + 1) w1 Hrest)
          as (al & av & w' & E & Hh & Hn & Hy & Htr & Hal & Ht & Hav & Hex).
        exists al, av, w'. simpl in *. rewrite E.
        repeat split; auto; try lia.
        intros _. exists b, q, (ticks w).
        repeat split; auto; [left | | lia].
        unfold usable, idle. rewrite Eg, Ea. reflexivity.
      * destruct (IH (alive + 1) available w1 Hrest)
          as (al & av & w' & E & Hh & Hn & Hy & Htr & Hal & Ht & Hav & Hex).
        exists al, av, w'. simpl in *. rewrite E.
        repeat split; auto; try lia.
        intros Hlt. destruct (Hex Hlt) as (c & qc & k & H1 & H2 & H3 & H4).
        exists c, qc, k. repeat split; auto; [right; auto | lia | lia].
    + destruct (IH alive available w Hrest)
        as (al & av & w' & E & Hh & Hn & Hy & Htr & Hal & Ht & Hav & Hex).
      exists al, av, w'. rewrite E.
      repeat split; auto; try lia.
      intros Hlt. destruct (Hex Hlt) as (c & qc & k & H1 & H2 & H3 & H4).
      exists c, qc, k. repeat split; auto; [right; auto | lia | lia].
Qed.

(** X5: [UpdateCounts] sets [AliveCount] to the number of proxies of the
    pool that are alive and [AvailableCount] to a number between 0 and
    [AliveCount]; it reads the clock once for each alive proxy and changes
    nothing else, neither the list, the settings nor any proxy. *)
Theorem UpdateCounts_counts env pool w :
  Forall (fun a => is_Some (heap w !! a)) (proxies pool) ->
  exists pool' w',
    UpdateCounts env pool w = (Val pool', w') /\
    AliveCount pool' =
      Z.of_nat (length (List.filter (alive_in (heap w)) (proxies pool))) /\
    0 <= AvailableCount pool' <= AliveCount pool' /\
    AliveCount pool' <= Z.of_nat (length (proxies pool)) /\
    ticks w' = (ticks w + Z.to_nat (AliveCount pool'))%nat /\
    proxies pool' = proxies pool /\ TestURL pool' = TestURL pool /\
    RateLimit pool' = RateLimit pool /\ RetestDelay pool' = RetestDelay pool /\
    heap w' = heap w /\ requests w' = requests w /\ ready w' = ready w /\
    trace w' = trace w.
Proof.
  intros Hv. unfold UpdateCounts, mbind, M_bind, mret, M_ret.
  destruct (UpdateCounts_range_counts env pool (proxies pool) 0 0 w Hv)
    as (al & av & w' & E & Hh & Hn & Hy & Htr & Hal & Ht & Hav & _).
  rewrite E. eexists _, w'. split; [reflexivity|]. simpl.
  pose proof (filter_length_le (alive_in (heap w)) (proxies pool)).
  repeat split; auto; try lia.
Qed.

(** X6: with a clock that does not run backwards, when [UpdateCounts]
    reports a positive [AvailableCount] the next [GetAvailableProxy] on
    that world returns a proxy. *)
Theorem UpdateCounts_available_then_selected env pool w pool' w' :
  (forall i j, (i <= j)%nat -> wall env i <= wall env j) ->
  Forall (fun a => is_Some (heap w !! a)) (proxies pool) ->
  UpdateCounts env pool w = (Val pool', w') ->
  0 < AvailableCount pool' ->
  exists a w'', GetAvailableProxy env pool' w' = (Val (Some a, None), w'').
Proof.
  intros Hmono Hv E Hpos.
  unfold UpdateCounts, mbind, M_bind, mret, M_ret in E.
  destruct (UpdateCounts_range_counts env pool (proxies pool) 0 0 w Hv)
    as (al & av & w1 & E1 & Hh & _ & _ & _ & _ & Ht & _ & Hex).
  rewrite E1 in E. inversion E; subst pool' w1; clear E. simpl in Hpos.
  destruct (Hex Hpos) as (b & q & k & Hb & Hq & Hu & Hk).
  unfold GetAvailableProxy. simpl proxies.
  set (pool' := mkProxyPool _ _ _ _ _ _).
  assert (Forall (fun a => is_Some (heap w' !! a)) (proxies pool)) as Hv'
    by (rewrite Hh; exact Hv).
  destruct (GetAvailableProxy_range_returns env pool' (proxies pool) w' Hv')
    as ([[a|] err] & w'' & E).
  - destruct (GetAvailableProxy_range_some _ _ _ _ _ _ _ E)
      as (_ & _ & _ & _ & _ & _ & _ & ->).
    exists a, w''. exact E.
  - exfalso.
    destruct (GetAvailableProxy_range_none _ _ _ _ _ _ E) as (_ & _ & Hpass).
    apply list_elem_of_lookup_1 in Hb. destruct Hb as [j Hj].
    destruct (Hpass j (lookup_lt_Some _ _ _ Hj)) as (b' & qb & H1 & H2 & H3).
    rewrite Hj in H1. inversion H1; subst b'.
    rewrite Hh, Hq in H2. inversion H2; subst qb.
    assert (usable env pool' (ticks w' + 2 * j + 1) q = true) as Hu'.
    { apply (usable_mono env pool' k); [apply Hmono; lia|]. exact Hu. }
    congruence.
Qed.


(** ** More on [ProxyPool.GetAvailableProxy] *)




(** X8: with a clock that does not run backwards, a fetch through the
    proxy that [GetAvailableProxy] has just returned stamps it more than
    [RateLimit] seconds after its previous stamp. *)
Theorem fetch_after_selection_is_spaced env pool url w a err w1 :
  (forall i j, (i <= j)%nat -> wall env i <= wall env j) ->
  GetAvailableProxy env pool w = (Val (Some a, err), w1) ->
  exists q o w2 q2,
    heap w !! a = Some q /\
    Proxy_Get env a url w1 = (o, w2) /\ heap w2 !! a = Some q2 /\
    RateLimit pool * time_Second < time_Sub (lastRequest q2) (lastRequest q).
Proof.
  intros Hmono H. unfold GetAvailableProxy in H.
  destruct (GetAvailableProxy_range_some _ _ _ _ _ _ _ H)
    as (i & q & Hi & Hq & Hu & _ & Ht & _).
  destruct (GetAvailableProxy_range_retests env pool (proxies pool) w)
    as (l & Hh & _). rewrite H in Hh. simpl in Hh.
  assert (heap w1 !! a = Some q) as Hq1 by (rewrite Hh; exact Hq).
  assert (RateLimit pool * time_Second <
          time_Sub (wall env (ticks w1)) (lastRequest q)) as Hsp.
  { unfold usable, idle in Hu. apply andb_true_iff in Hu. destruct Hu as [Hu _].
    apply float64_gt_Seconds in Hu.
    assert (wall env (ticks w + 2 * i + 1) <= wall env (ticks w1)) as Hk
      by (apply Hmono; lia).
    pose proof (time_Sub_mono _ _ (lastRequest q) Hk). lia. }
  exists q. destruct (client q) as [c|] eqn:Hc.
  - rewrite (Proxy_Get_eq env a url w1 q c Hq1 Hc).
    eexists _, _, _. split; [exact Hq|]. split; [reflexivity|].
    split; [eapply heap_after_Get; eauto|]. exact Hsp.
  - rewrite (Proxy_Get_nil_client env a url w1 q Hq1 Hc).
    eexists _, _, _. split; [exact Hq|]. split; [reflexivity|].
    split; [simpl; eauto using lookup_store|]. exact Hsp.
Qed.


(** ** More on [ProxyPool.LoadProxies] *)

(** The pool after the loop that keeps the live candidates, before the
    counters are recomputed. *)
Lemma LoadProxies_stages env pool path texts scanErr w :
  fs env path = File texts scanErr ->
  Forall (fun text => is_Some (candidate text)) texts ->
  exists w1 w2,
    let addrs := seq (length (heap w)) (length texts) in
    let kept :=
      mkProxyPool (proxies pool ++ List.filter (alive_in (heap w2)) addrs)
                  (TestURL pool) (RateLimit pool) (RetestDelay pool)
                  (AliveCount pool) (AvailableCount pool) in
    LoadProxies_scan pool texts [] [] w =
      (Val (addrs, map (fun a => GoCreate a (TestURL pool)) addrs), w1) /\
    requests w1 = requests w /\ ticks w1 = ticks w /\
    wg_Wait env (map (fun a => GoCreate a (TestURL pool)) addrs) w1 = (Val tt, w2) /\
    length (heap w2) = (length (heap w) + length texts)%nat /\
    LoadProxies env pool path w =
      match scanErr with
      | Some err => (Val (kept, Some err), w2)
      | None =>
          match UpdateCounts env kept w2 with
          | (Val pool', w') => (Val (pool', None), w')
          | (Panic msg, w') => (Panic msg, w')
          | (Exit code, w') => (Exit code, w')
          end
      end.
Proof.
  intros Hfs Hwf. unfold LoadProxies. rewrite Hfs.
  destruct (LoadProxies_scan_wellformed pool texts [] [] w Hwf)
    as (w1 & E1 & Hh1 & Hlen & Ht1 & Hn1 & Hy1).
  set (n0 := length (heap w)) in *. set (k := length texts) in *.
  assert (length (heap w1) = (n0 + k)%nat) as Hl1
    by (rewrite Hh1, length_app, Hlen; reflexivity).
  assert (Forall (fun a => is_Some (heap w1 !! a)) (seq n0 k)) as Hv1.
  { apply Forall_forall. intros a Ha. apply valid_lt.
    apply list_elem_of_In, in_seq in Ha. lia. }
  destruct (wg_Wait_Creates env (TestURL pool) (seq n0 k) w1 (NoDup_seq n0 k) Hv1)
    as (w2 & E2 & Hl2 & _).
  assert (Forall (fun a => is_Some (heap w2 !! a)) (seq n0 k)) as Hv2.
  { eapply Forall_impl; [exact Hv1|]. simpl. intros a Ha.
    apply valid_lt. apply valid_lt in Ha. lia. }
  exists w1, w2. cbn zeta. simpl app in E1.
  split; [exact E1|]. split; [exact Hn1|]. split; [exact Ht1|].
  split; [exact E2|]. split; [lia|].
  unfold mbind at 1, M_bind at 1. rewrite E1.
  unfold mbind at 1, M_bind at 1. rewrite E2.
  unfold mbind at 1, M_bind at 1. rewrite (LoadProxies_keep_eq pool _ w2 Hv2).
  cbv beta iota. destruct scanErr as [err|]; reflexivity.
Qed.

Lemma LoadProxies_scan_requests pool texts ps wg w r w1 :
  LoadProxies_scan pool texts ps wg w = (Val r, w1) ->
  requests_in (trace w1) = requests_in (trace w).
Proof.
  revert ps wg w. induction texts as [|text rest IH]; intros ps wg w H.
  - inversion H; subst. reflexivity.
  - destruct (candidate text) as [p0|] eqn:Ec.
    + rewrite (LoadProxies_scan_cons _ _ _ _ _ _ _ Ec) in H.
      rewrite (IH _ _ _ H). simpl. rewrite requests_in_app, app_nil_r. reflexivity.
    + rewrite (LoadProxies_scan_short _ _ _ _ _ _ Ec) in H. discriminate H.
Qed.

Lemma after_Create_requests env a p testURL w :
  exists new,
    requests_in (trace (after_Create env a p testURL w)) =
      requests_in (trace w) ++ new /\
    length new = Create_cost env p testURL w /\
    Forall (fun x => snd (fst x) = testURL) new.
Proof.
  unfold after_Create, Create_cost.
  destruct (attempt_facts env 5 a p testURL w) as (_ & _ & _ & _ & Hr5).
  destruct (fetched (serve env (requests w) (socks_client 5 p) testURL)).
  - eexists. split; [exact Hr5|]. split; [reflexivity|]. repeat constructor.
  - destruct (attempt_facts env 4 a (tried env 5 p testURL w) testURL
                (attempt env 5 a p testURL w)) as (_ & _ & _ & _ & Hr4).
    eexists. split; [rewrite Hr4, Hr5, <- app_assoc; reflexivity|].
    split; [reflexivity|]. repeat constructor.
Qed.

Lemma wg_Wait_cost env testURL addrs w w' :
  wg_Wait env (map (fun a => GoCreate a testURL) addrs) w = (Val tt, w') ->
  (requests w + length addrs <= requests w' <= requests w + 2 * length addrs)%nat /\
  exists new,
    requests_in (trace w') = requests_in (trace w) ++ new /\
    length new = (requests w' - requests w)%nat /\
    Forall (fun x => snd (fst x) = testURL) new.
Proof.
  revert w. induction addrs as [|a rest IH]; intros w H.
  - inversion H; subst. simpl. split; [lia|].
    exists []. rewrite app_nil_r. split; [reflexivity|].
    split; [simpl; lia | constructor].
  - cbn [map wg_Wait run] in H. unfold mbind, M_bind in H.
    destruct (heap w !! a) as [p|] eqn:Hp.
    + rewrite (Proxy_Create_eq env a testURL w p Hp) in H.
      destruct (IH _ H) as (Hb & new & Hr & Hl & Hu).
      destruct (after_Create_facts env a p testURL w) as (Hn & Hrq & _).
      destruct (after_Create_requests env a p testURL w) as (new0 & Hr0 & Hl0 & Hu0).
      cbn zeta in *. simpl length. split; [lia|].
      exists (new0 ++ new). rewrite Hr, Hr0, <- app_assoc, length_app.
      repeat split; [lia|]. apply Forall_app. auto.
    + rewrite (Proxy_Create_nil_receiver env a testURL w Hp) in H. discriminate H.
Qed.

Lemma filter_filter {A} (f : A -> bool) (l : list A) :
  List.filter f (List.filter f l) = List.filter f l.
Proof.
  induction l as [|x l IH]; [reflexivity|]. simpl.
  destruct (f x) eqn:E; simpl; rewrite ?E, IH; reflexivity.
Qed.

(** X9: a load writes to no struct that was there before it, allocates one
    struct for each line, leaves the settings of the pool and the ready
    goroutines as they were, and keeps the proxies the pool held at the
    front of its list, in their order. *)
Theorem LoadProxies_keeps_what_was_there env pool path texts scanErr w :
  fs env path = File texts scanErr ->
  Forall (fun text => (2 <= fields text)%nat) texts ->
  Forall (fun a => is_Some (heap w !! a)) (proxies pool) ->
  exists pool' w' added,
    LoadProxies env pool path w = (Val (pool', scanErr), w') /\
    proxies pool' = proxies pool ++ added /\
    Forall (fun a => (length (heap w) <= a)%nat) added /\
    (forall b, (b < length (heap w))%nat -> heap w' !! b = heap w !! b) /\
    length (heap w') = (length (heap w) + length texts)%nat /\
    TestURL pool' = TestURL pool /\ RateLimit pool' = RateLimit pool /\
    RetestDelay pool' = RetestDelay pool /\ ready w' = ready w.
Proof.
  intros Hfs Hwf Hv.
  destruct (LoadProxies_outcome env pool path texts scanErr w Hfs
              (wellformed_candidates texts Hwf) Hv)
    as (pool' & w' & E & Hps & Hu & Hr & Hd & Hl & Hold & Hy & _).
  exists pool', w', (List.filter (alive_in (heap w'))
                       (seq (length (heap w)) (length texts))).
  repeat split; auto.
  apply Forall_forall. intros a Ha.
  apply list_elem_of_In, filter_In in Ha. destruct Ha as [Ha _].
  apply in_seq in Ha. lia.
Qed.

(** X10: after a load every pointer of the pool is valid, every proxy the
    load added is alive and has its client, and a [GetAvailableProxy] on
    the loaded pool returns: it cannot panic. *)
Theorem LoadProxies_then_GetAvailableProxy_returns env pool path texts scanErr w :
  fs env path = File texts scanErr ->
  Forall (fun text => (2 <= fields text)%nat) texts ->
  Forall (fun a => is_Some (heap w !! a)) (proxies pool) ->
  exists pool' w' r w'',
    LoadProxies env pool path w = (Val (pool', scanErr), w') /\
    Forall (fun a => is_Some (heap w' !! a)) (proxies pool') /\
    (forall a, a ∈ proxies pool' -> (length (heap w) <= a)%nat ->
       exists q, heap w' !! a = Some q /\ Alive q = true /\ is_Some (client q)) /\
    GetAvailableProxy env pool' w' = (Val r, w'').
Proof.
  intros Hfs Hwf Hv.
  destruct (LoadProxies_outcome env pool path texts scanErr w Hfs
              (wellformed_candidates texts Hwf) Hv)
    as (pool' & w' & E & Hps & _ & _ & _ & Hl & Hold & _ & Hcand).
  assert (Forall (fun a => is_Some (heap w' !! a)) (proxies pool')) as Hv'.
  { rewrite Hps. apply Forall_app. split.
    - eapply Forall_impl; [exact Hv|]. simpl. intros a Ha.
      apply valid_lt. apply valid_lt in Ha. lia.
    - apply Forall_forall. intros a Ha.
      apply list_elem_of_In, filter_In in Ha. destruct Ha as [Ha _].
      apply in_seq in Ha. apply valid_lt. lia. }
  destruct (GetAvailableProxy_range_returns env pool' (proxies pool') w' Hv')
    as (r & w'' & Er).
  exists pool', w', r, w''. split; [exact E|]. split; [exact Hv'|].
  split; [|exact Er].
  intros a Ha Hnew. rewrite Hps in Ha. apply elem_of_app in Ha.
  destruct Ha as [Ha | Ha].
  - exfalso. apply (proj1 (Forall_forall _ _) Hv), valid_lt in Ha. lia.
  - apply list_elem_of_In, filter_In in Ha. destruct Ha as [Ha Halive].
    apply in_seq in Ha.
    destruct (lookup_lt_is_Some_2 texts (a - length (heap w))%nat) as [text Ht];
      [lia|].
    destruct (Hcand _ _ Ht) as (p0 & p' & n & _ & H2 & _ & _ & _ & _ & H7).
    replace (length (heap w) + (a - length (heap w)))%nat with a in H2 by lia.
    unfold alive_in in Halive. rewrite H2 in Halive. eauto.
Qed.

(** X11: when the scanner ends without error the load recomputes the
    counters: [AliveCount] is the number of alive proxies of the pool (all
    of them, for a pool that was empty) and [AvailableCount] is at most
    that.  When the scanner ends on a read error the live candidates are
    kept all the same but the counters are left as they were. *)
Theorem LoadProxies_counters env pool path texts scanErr w :
  fs env path = File texts scanErr ->
  Forall (fun text => (2 <= fields text)%nat) texts ->
  Forall (fun a => is_Some (heap w !! a)) (proxies pool) ->
  exists pool' w',
    LoadProxies env pool path w = (Val (pool', scanErr), w') /\
    match scanErr with
    | None =>
        AliveCount pool' =
          Z.of_nat (length (List.filter (alive_in (heap w')) (proxies pool'))) /\
        0 <= AvailableCount pool' <= AliveCount pool' /\
        (proxies pool = [] -> AliveCount pool' = Z.of_nat (length (proxies pool')))
    | Some _ =>
        AliveCount pool' = AliveCount pool /\
        AvailableCount pool' = AvailableCount pool /\
        proxies pool' =
          proxies pool ++
            List.filter (alive_in (heap w')) (seq (length (heap w)) (length texts))
    end.
Proof.
  intros Hfs Hwf Hv.
  destruct (LoadProxies_stages env pool path texts scanErr w Hfs
              (wellformed_candidates texts Hwf))
    as (w1 & w2 & _ & _ & _ & _ & Hl2 & E).
  cbn zeta in E. destruct scanErr as [err|].
  - eexists _, _. split; [exact E|]. simpl. auto.
  - set (kept := mkProxyPool _ _ _ _ _ _) in E.
    assert (Forall (fun a => is_Some (heap w2 !! a)) (proxies kept)) as Hvk.
    { simpl. apply Forall_app. split.
      - eapply Forall_impl; [exact Hv|]. simpl. intros a Ha.
        apply valid_lt. apply valid_lt in Ha. lia.
      - apply Forall_forall. intros a Ha.
        apply list_elem_of_In, filter_In in Ha. destruct Ha as [Ha _].
        apply in_seq in Ha. apply valid_lt. lia. }
    unfold UpdateCounts, mbind, M_bind, mret, M_ret in E.
    destruct (UpdateCounts_range_counts env kept (proxies kept) 0 0 w2 Hvk)
      as (al & av & w' & E' & Hh & _ & _ & _ & Hal & _ & Hav & _).
    rewrite E' in E. eexists _, _. split; [exact E|]. simpl proxies.
    cbn [AliveCount AvailableCount]. rewrite Hh.
    unfold kept in Hal. simpl proxies in Hal.
    split; [lia|]. split; [lia|].
    intros Hnil. rewrite Hal, Hnil. simpl app.
    rewrite filter_filter. lia.
Qed.

(** X12: a load makes at least one and at most two requests for each line,
    all of them for the test URL of the pool. *)
Theorem LoadProxies_fetches_only_TestURL env pool path texts scanErr w :
  fs env path = File texts scanErr ->
  Forall (fun text => (2 <= fields text)%nat) texts ->
  Forall (fun a => is_Some (heap w !! a)) (proxies pool) ->
  exists pool' w' new,
    LoadProxies env pool path w = (Val (pool', scanErr), w') /\
    requests_in (trace w') = requests_in (trace w) ++ new /\
    Forall (fun x => snd (fst x) = TestURL pool) new /\
    length new = (requests w' - requests w)%nat /\
    (length texts <= length new <= 2 * length texts)%nat.
Proof.
  intros Hfs Hwf Hv.
  destruct (LoadProxies_stages env pool path texts scanErr w Hfs
              (wellformed_candidates texts Hwf))
    as (w1 & w2 & E1 & Hn1 & _ & E2 & Hl2 & E).
  cbn zeta in E1, E2, E.
  pose proof (LoadProxies_scan_requests _ _ _ _ _ _ _ E1) as Hr1.
  destruct (wg_Wait_cost env (TestURL pool) _ w1 w2 E2)
    as (Hb & new & Hr2 & Hlen & Hu).
  rewrite length_seq in Hb. rewrite Hr1 in Hr2. rewrite Hn1 in *.
  destruct scanErr as [err|].
  - eexists _, w2, new. split; [exact E|]. repeat split; auto; lia.
  - set (kept := mkProxyPool _ _ _ _ _ _) in E.
    assert (Forall (fun a => is_Some (heap w2 !! a)) (proxies kept)) as Hvk.
    { simpl. apply Forall_app. split.
      - eapply Forall_impl; [exact Hv|]. simpl. intros a Ha.
        apply valid_lt. apply valid_lt in Ha. lia.
      - apply Forall_forall. intros a Ha.
        apply list_elem_of_In, filter_In in Ha. destruct Ha as [Ha _].
        apply in_seq in Ha. apply valid_lt. lia. }
    destruct (UpdateCounts_returns env kept w2 Hvk)
      as (pool' & w' & E' & _ & _ & _ & _ & _ & Hn' & _ & Htr').
    rewrite E' in E. exists pool', w', new. split; [exact E|].
    rewrite Htr', Hn'. repeat split; auto; lia.
Qed.


(** ** [ProxyPool.Get] *)

Lemma schedule_n_idle env n w : ready w = [] -> schedule_n env n w = (Val tt, w).
Proof.
  intros H. induction n as [|n IH]; [reflexivity|].
  cbn [schedule_n]. unfold mbind, M_bind, schedule at 1. rewrite H. exact IH.
Qed.

Lemma Proxy_Get_nil_error env a url w buf w' :
  Proxy_Get env a url w = (Val (buf, None), w') ->
  exists p c,
    heap w !! a = Some p /\ client p = Some c /\
    serve env (requests w) c url = Response 200 (ReadAll buf) /\
    w' = after_Get env a p c url w.
Proof.
  intros H. destruct (heap w !! a) as [p|] eqn:Hp.
  - destruct (client p) as [c|] eqn:Hc.
    + rewrite (Proxy_Get_eq env a url w p c Hp Hc) in H.
      inversion H as [[Hr Hw]]. exists p, c. repeat split; auto.
      destruct (serve env (requests w) c url) as [e | code [b | e]];
        simpl in Hr; try discriminate.
      destruct (Z.eqb_spec code 200); [|discriminate].
      inversion Hr; subst. reflexivity.
    + rewrite (Proxy_Get_nil_client env a url w p Hp Hc) in H. discriminate H.
  - rewrite (Proxy_Get_nil_receiver env a url w Hp) in H. discriminate H.
Qed.

Lemma ProxyPool_Get_returned env yield rounds pool url w r w' :
  ProxyPool_Get env yield rounds pool url w = (Val (Some r), w') ->
  exists a p c w1,
    a ∈ proxies pool /\ heap w1 !! a = Some p /\ client p = Some c /\
    serve env (requests w1) c url = Response 200 (ReadAll r) /\
    w' = after_Get env a p c url w1.
Proof.
  revert w. induction rounds as [|n IH]; intros w H; [discriminate H|].
  cbn [ProxyPool_Get] in H. unfold mbind at 1, M_bind at 1 in H.
  destruct (GetAvailableProxy env pool w) as [[[pr err]| |] w1] eqn:Eg;
    try discriminate H.
  unfold mbind at 1, M_bind at 1 in H.
  destruct err as [e|].
  - unfold mret at 1, M_ret at 1 in H.
    unfold mbind at 1, M_bind at 1, time_Sleep at 1 in H.
    destruct (schedule_n env (yield w1) w1) as [[[]| |] w2]; try discriminate H.
    exact (IH _ H).
  - destruct pr as [a|].
    + unfold mbind at 1, M_bind at 1 in H.
      destruct (Proxy_Get env a url w1) as [[[buf reqErr]| |] w2] eqn:Ef;
        try discriminate H.
      destruct reqErr as [e|].
      * unfold mret at 1, M_ret at 1 in H.
        unfold mbind at 1, M_bind at 1, time_Sleep at 1 in H.
        destruct (schedule_n env (yield w2) w2) as [[[]| |] w3]; try discriminate H.
        exact (IH _ H).
      * unfold mret, M_ret in H. inversion H; subst.
        destruct (Proxy_Get_nil_error _ _ _ _ _ _ Ef) as (p & c & Hp & Hc & Hr & Hw).
        destruct (GetAvailableProxy_range_some _ _ _ _ _ _ _ Eg)
          as (i & _ & Hi & _).
        exists a, p, c, w1. repeat split; auto.
        eapply list_elem_of_lookup_2; eauto.
    + unfold mbind at 1 2, M_bind at 1 2, time_Now, panic in H. discriminate H.
Qed.


(** X14: on a pool without proxies [ProxyPool.Get] does not return, however
    many turns it is given; when no goroutine is ready either, its turns
    change nothing at all. *)
Theorem ProxyPool_Get_on_empty_pool env yield rounds pool url w :
  proxies pool = [] ->
  (forall r w', ProxyPool_Get env yield rounds pool url w <> (Val (Some r), w')) /\
  (ready w = [] -> ProxyPool_Get env yield rounds pool url w = (Val None, w)).
Proof.
  intros Hnil. split.
  - intros r w' H.
    destruct (ProxyPool_Get_returned _ _ _ _ _ _ _ _ H) as (a & _ & _ & _ & Ha & _).
    rewrite Hnil in Ha. inversion Ha.
  - intros Hidle. induction rounds as [|n IH]; [reflexivity|].
    cbn [ProxyPool_Get]. unfold GetAvailableProxy. rewrite Hnil.
    cbn [GetAvailableProxy_range].
    unfold mbind, M_bind, mret, M_ret, time_Sleep.
    rewrite (schedule_n_idle env _ w Hidle). exact IH.
Qed.



(** * The scenarios, run *)

(** In the lab, a fetch through the dead proxy of 10.0.0.2 at the 30th
    reading of the clock is answered: the proxy is alive afterwards and
    the error is nil. *)
Lemma Proxy_Get_Alive_iff_200_witness :
  exists buf err w' p',
    Proxy_Get lab 0%nat example_com (at_reading 30 (proxy2 false 0)) =
      (Val (buf, err), w') /\
    heap w' !! 0%nat = Some p' /\ Alive p' = true /\ err = None.
Proof.
  destruct (Proxy_Get_Alive_iff_200 lab 0%nat example_com
              (at_reading 30 (proxy2 false 0)) (proxy2 false 0)
              (socks_client 4 fresh2) eq_refl eq_refl)
    as (buf & err & w' & p' & E & Hh & H1 & H2 & _).
  exists buf, err, w', p'.
  assert (Alive p' = true) as Ha by (apply H1; eexists; reflexivity).
  repeat split; auto. apply H2. exact Ha.
Defined.


(** C3, as stated, fails: an alive proxy that has been idle for
    [RateLimit] seconds to the nanosecond, which is at least [RateLimit]
    seconds, is not selected. *)
Lemma idle_RateLimit_seconds_not_selected :
  let q := proxy2 true (- 10 * time_Second) in
  Alive q = true /\
  (forall k, idle frozen k q = RateLimit pool2 * time_Second) /\
  fst (GetAvailableProxy frozen pool2 (at_reading 0 q)) =
    Val (None, Some "no proxies available").
Proof. repeat split. Qed.

(** In the lab, eleven seconds after its fetch the proxy is returned, and
    it has been idle for more than the ten seconds of [RateLimit]. *)
Lemma GetAvailableProxy_past_RateLimit_witness :
  let w := at_reading 11 (proxy2 true 0) in
  exists q k,
    0%nat ∈ proxies pool2 /\ heap w !! 0%nat = Some q /\
    Alive q = true /\ RateLimit pool2 * time_Second < idle lab k q.
Proof.
  intros w.
  destruct (GetAvailableProxy_past_RateLimit lab pool2 w 0%nat None
              (snd (GetAvailableProxy lab pool2 w)) eq_refl)
    as (q & k & H1 & H2 & _ & H3 & _ & H4 & _).
  exists q, k. auto.
Defined.


(** In the lab, [notes.txt] has a line without a colon after a line that
    is fine: the load panics. *)
Lemma LoadProxies_panics_on_single_field_witness :
  exists w', LoadProxies lab lab_pool "notes.txt" boot = (Panic index_out_of_range, w').
Proof.
  destruct (LoadProxies_panics_on_single_field lab lab_pool "notes.txt"
              ["10.0.0.2:1080"] "localhost" ["10.0.0.1:1080"] None boot eq_refl)
    as (w' & E & _).
  - repeat constructor.
  - reflexivity.
  - exists w'. exact E.
Defined.

(** C7, as stated, fails: the file cannot be opened, and [LoadProxies]
    returns nothing to its caller, the process exits with status 1. *)
Lemma LoadProxies_exits_when_open_fails :
  fs lab "missing.txt" = OpenError "open missing.txt: no such file or directory" /\
  fst (LoadProxies lab lab_pool "missing.txt" boot) = Exit 1 /\
  forall r, fst (LoadProxies lab lab_pool "missing.txt" boot) <> Val r.
Proof. repeat split. intros r. discriminate. Qed.

(** In the lab, the scanner of [torn.txt] stops on a read error after one
    line: the load returns that error. *)
Lemma LoadProxies_source_failure_witness :
  exists pool' w',
    LoadProxies lab lab_pool "torn.txt" boot =
      (Val (pool', Some "read torn.txt: input/output error"), w').
Proof.
  apply (LoadProxies_source_failure lab lab_pool "torn.txt" boot (List.Forall_nil _)).
  repeat constructor.
Defined.

(** In the lab, [proxies.txt] lists 10.0.0.1, which answers on neither
    version, and 10.0.0.2, which answers on SOCKS4: a new pool loaded from
    it holds one proxy, 10.0.0.2. *)
Lemma LoadProxies_keeps_negotiated_witness :
  exists pool' w' a p',
    LoadProxies lab lab_pool "proxies.txt" boot = (Val (pool', None), w') /\
    proxies pool' = [a] /\ heap w' !! a = Some p' /\
    ip p' = "10.0.0.2" /\ port p' = 1080 /\ Alive p' = true.
Proof.
  destruct (LoadProxies_keeps_negotiated lab lab_pool "proxies.txt"
              ["10.0.0.1:1080"; "10.0.0.2:1080"] None boot eq_refl)
    as (pool' & w' & E & _ & _ & Hone).
  - repeat constructor.
  - constructor.
  - destruct (Hone "10.0.0.1:1080" "10.0.0.2:1080" _ _ eq_refl (or_introl eq_refl)
                eq_refl eq_refl)
      as (a & p' & H1 & H2 & H3 & H4 & H5).
    + intros n. reflexivity.
    + intros n. reflexivity.
    + exists pool', w', a, p'. repeat split; auto.
Defined.

(** In the lab, the negotiation of 10.0.0.2 takes two requests and ends on
    SOCKS4. *)
Lemma Proxy_Create_socks5_then_socks4_witness :
  exists w' p',
    Proxy_Create lab 0%nat example_com (at_reading 0 fresh2) = (Val tt, w') /\
    heap w' !! 0%nat = Some p' /\
    URL p' = "socks4://10.0.0.2:1080" /\ Alive p' = true /\
    length (requests_in (trace w')) = 2%nat.
Proof.
  destruct (Proxy_Create_socks5_then_socks4 lab 0%nat example_com
              (at_reading 0 fresh2) fresh2 eq_refl)
    as (w' & p' & E & Hh & _ & _ & _ & Hr & Hu & _ & _ & Ha).
  exists w', p'. rewrite Hr. repeat split; auto.
Defined.

(** ** Parsing a line *)

Example strings_Split_two_fields :
  strings_Split "10.0.0.2:1080" ":" = ["10.0.0.2"; "1080"].
Proof. vm_compute. reflexivity. Qed.

Example strings_Split_no_colon : strings_Split "localhost" ":" = ["localhost"].
Proof. vm_compute. reflexivity. Qed.

Example strings_Split_blank_line : strings_Split EmptyString ":" = [EmptyString].
Proof. vm_compute. reflexivity. Qed.

Example strconv_Atoi_port : strconv_Atoi "1080" = (1080, None).
Proof. vm_compute. reflexivity. Qed.

Example strconv_Atoi_word : strconv_Atoi "http" = (0, Some ErrSyntax).
Proof. vm_compute. reflexivity. Qed.

Example strconv_Atoi_too_large :
  strconv_Atoi "9223372036854775808" = (9223372036854775807, Some ErrRange).
Proof. vm_compute. reflexivity. Qed.

(** The error of [Atoi] is dropped: a port that is not a number is read
    as port 0, the line is neither reported nor skipped, and whether its
    proxy is kept is left to the negotiation. *)
Example candidate_of_unparsed_port :
  candidate "10.0.0.9:http" = candidate "10.0.0.9:0" /\
  port <$> candidate "10.0.0.9:http" = Some 0.
Proof. vm_compute. split; reflexivity. Qed.

(** Fields after the second are dropped without a word. *)
Example candidate_ignores_more_fields :
  fields "10.0.0.2:1080:4" = 3%nat /\
  candidate "10.0.0.2:1080:4" = candidate "10.0.0.2:1080".
Proof. vm_compute. split; reflexivity. Qed.

Example LoadProxies_keeps_unparsed_port :
  let '(r, w') := LoadProxies lenient lab_pool "proxies.txt" boot in
  r = Val (mkProxyPool [0%nat] example_com 10 300 1 0, None) /\
  URL <$> heap w' !! 0%nat = Some "socks5://10.0.0.9:0" /\
  port <$> heap w' !! 0%nat = Some 0 /\
  Alive <$> heap w' !! 0%nat = Some true.
Proof. vm_compute. repeat split. Qed.

(** ** Selecting and retesting *)

(** [RateLimit] is 10: a proxy that fetched two seconds ago is not
    available, eleven seconds after its fetch it is. *)
Example GetAvailableProxy_cooling_down :
  fst (GetAvailableProxy lab pool2 (at_reading 2 (proxy2 true 0))) =
    Val (None, Some "no proxies available").
Proof. vm_compute. reflexivity. Qed.

Example GetAvailableProxy_cooled_down :
  fst (GetAvailableProxy lab pool2 (at_reading 11 (proxy2 true 0))) =
    Val (Some 0%nat, None).
Proof. vm_compute. reflexivity. Qed.

(** [RetestDelay] is 300: for a dead proxy last tried 301 seconds ago the
    scan starts one retest and reports that no proxy is available; once
    the retest has run the proxy is alive. *)
Example GetAvailableProxy_retests_then_alive :
  let '(r, w1) := GetAvailableProxy lab pool2 (at_reading 301 (proxy2 false 0)) in
  let '(_, w2) := schedule lab w1 in
  r = Val (None, Some "no proxies available") /\
  ready w1 = [GoGet 0%nat example_com] /\
  alive_in (heap w1) 0%nat = false /\
  ready w2 = [] /\ alive_in (heap w2) 0%nat = true.
Proof. vm_compute. repeat split. Qed.

(** The retest is not run by the scan: a second scan before the scheduler
    ran the first retest starts another one. *)
Example GetAvailableProxy_retests_again :
  let '(_, w1) := GetAvailableProxy lab pool2 (at_reading 301 (proxy2 false 0)) in
  let '(_, w2) := GetAvailableProxy lab pool2 w1 in
  ready w2 = [GoGet 0%nat example_com; GoGet 0%nat example_com].
Proof. vm_compute. reflexivity. Qed.


(** ** More runs *)

Lemma candidate_of_printed_line_witness :
  exists p0,
    candidate ("10.0.0.2" +:+ ":" +:+ fmt_d 1080) = Some p0 /\
    socks_URL 5 p0 = "socks5://10.0.0.2:1080".
Proof.
  destruct (candidate_of_printed_line "10.0.0.2" 1080 5 eq_refl)
    as (p0 & E & _ & _ & Hu); [lia|].
  exists p0. split; [exact E | exact Hu].
Defined.

(** An IPv6 address cannot be listed: the line is cut at its first colon. *)
Lemma candidate_splits_at_first_colon_witness :
  exists p0,
    candidate "[::1]:1080" = Some p0 /\ ip p0 = "[" /\ port p0 = 0 /\
    fields (ip p0) = 1%nat.
Proof.
  eexists. split; [reflexivity|]. split; [reflexivity|]. split; [reflexivity|].
  destruct (candidate_splits_at_first_colon "[::1]:1080" _ eq_refl)
    as (rest & pt & more & _ & Hf & _).
  exact Hf.
Defined.

Lemma Proxy_Get_frame_witness :
  exists o w' p',
    Proxy_Get lab 0%nat example_com (at_reading 30 (proxy2 false 0)) = (o, w') /\
    heap w' !! 0%nat = Some p' /\ URL p' = "socks4://10.0.0.2:1080" /\
    length (heap w') = 1%nat.
Proof.
  destruct (Proxy_Get_frame lab 0%nat example_com
              (at_reading 30 (proxy2 false 0)) (proxy2 false 0) eq_refl)
    as (o & w' & p' & E & Hh & Hu & _ & _ & _ & _ & _ & _ & Hl & _).
  exists o, w', p'. repeat split; auto.
Defined.

Lemma Proxy_Create_cost_and_frame_witness :
  exists w' p',
    Proxy_Create lab 0%nat example_com (at_reading 0 fresh2) = (Val tt, w') /\
    heap w' !! 0%nat = Some p' /\ requests w' = 3%nat /\ ticks w' = 2%nat /\
    lastRequest p' = 1 * time_Second.
Proof.
  destruct (Proxy_Create_cost_and_frame lab 0%nat example_com
              (at_reading 0 fresh2) fresh2 eq_refl)
    as (w' & p' & n & E & Hh & Hn & _ & Hr & Ht & Hs & _).
  exists w', p'. subst n. rewrite Hs, Ht, Hr. repeat split; auto.
Defined.

Lemma UpdateCounts_counts_witness :
  exists pool' w',
    UpdateCounts lab pool2 (at_reading 11 (proxy2 true 0)) = (Val pool', w') /\
    AliveCount pool' = 1 /\ ticks w' = 12%nat.
Proof.
  destruct (UpdateCounts_counts lab pool2 (at_reading 11 (proxy2 true 0)))
    as (pool' & w' & E & Ha & _ & _ & Ht & _).
  - repeat constructor. eexists. reflexivity.
  - exists pool', w'. rewrite Ht, Ha. repeat split; auto.
Defined.

Lemma UpdateCounts_available_then_selected_witness :
  exists a w'',
    GetAvailableProxy lab pool2 (at_reading 12 (proxy2 true 0)) =
      (Val (Some a, None), w'').
Proof.
  apply (UpdateCounts_available_then_selected lab pool2
           (at_reading 11 (proxy2 true 0)) pool2 (at_reading 12 (proxy2 true 0))).
  - intros i j Hij. unfold lab, wall, time_Second. lia.
  - repeat constructor. eexists. reflexivity.
  - reflexivity.
  - reflexivity.
Defined.


Lemma fetch_after_selection_is_spaced_witness :
  let w := at_reading 11 (proxy2 true 0) in
  exists q o w2 q2,
    heap w !! 0%nat = Some q /\
    Proxy_Get lab 0%nat example_com (snd (GetAvailableProxy lab pool2 w)) = (o, w2) /\
    heap w2 !! 0%nat = Some q2 /\
    RateLimit pool2 * time_Second < time_Sub (lastRequest q2) (lastRequest q).
Proof.
  intros w.
  apply (fetch_after_selection_is_spaced lab pool2 example_com w 0%nat None).
  - intros i j Hij. unfold lab, wall, time_Second. lia.
  - reflexivity.
Defined.

Lemma LoadProxies_keeps_what_was_there_witness :
  exists pool' w' added,
    LoadProxies lab lab_pool "proxies.txt" boot = (Val (pool', None), w') /\
    proxies pool' = [] ++ added /\ length (heap w') = 2%nat /\
    RateLimit pool' = 10.
Proof.
  destruct (LoadProxies_keeps_what_was_there lab lab_pool "proxies.txt"
              ["10.0.0.1:1080"; "10.0.0.2:1080"] None boot eq_refl)
    as (pool' & w' & added & E & Hp & _ & _ & Hl & _ & Hr & _).
  - repeat constructor.
  - constructor.
  - exists pool', w', added. repeat split; auto.
Defined.

Lemma LoadProxies_then_GetAvailableProxy_returns_witness :
  exists pool' w' r w'',
    LoadProxies lab lab_pool "proxies.txt" boot = (Val (pool', None), w') /\
    GetAvailableProxy lab pool' w' = (Val r, w'').
Proof.
  destruct (LoadProxies_then_GetAvailableProxy_returns lab lab_pool "proxies.txt"
              ["10.0.0.1:1080"; "10.0.0.2:1080"] None boot eq_refl)
    as (pool' & w' & r & w'' & E & _ & _ & Eg).
  - repeat constructor.
  - constructor.
  - exists pool', w', r, w''. split; [exact E | exact Eg].
Defined.

(** In the lab, the scanner of [torn.txt] stops on a read error after the
    line of 10.0.0.2: the proxy is in the pool, the counter still says 0. *)
Lemma LoadProxies_counters_witness :
  exists pool' w',
    LoadProxies lab lab_pool "torn.txt" boot =
      (Val (pool', Some "read torn.txt: input/output error"), w') /\
    AliveCount pool' = 0 /\ proxies pool' = [0%nat].
Proof.
  destruct (LoadProxies_counters lab lab_pool "torn.txt" ["10.0.0.2:1080"]
              (Some "read torn.txt: input/output error") boot eq_refl)
    as (pool' & w' & E & Ha & _ & Hp).
  - repeat constructor.
  - constructor.
  - exists pool', w'. split; [exact E|]. split; [exact Ha|].
    rewrite Hp. replace (heap w') with (heap (snd (LoadProxies lab lab_pool "torn.txt" boot)))
      by (rewrite E; reflexivity).
    vm_compute. reflexivity.
Defined.

Lemma LoadProxies_fetches_only_TestURL_witness :
  exists pool' w' new,
    LoadProxies lab lab_pool "proxies.txt" boot = (Val (pool', None), w') /\
    requests_in (trace w') = new /\
    Forall (fun x => snd (fst x) = example_com) new /\
    (2 <= length new <= 4)%nat.
Proof.
  destruct (LoadProxies_fetches_only_TestURL lab lab_pool "proxies.txt"
              ["10.0.0.1:1080"; "10.0.0.2:1080"] None boot eq_refl)
    as (pool' & w' & new & E & Hr & Hu & _ & Hn).
  - repeat constructor.
  - constructor.
  - exists pool', w', new. repeat split; auto; simpl in Hn; lia.
Defined.


Lemma ProxyPool_Get_on_empty_pool_witness :
  ProxyPool_Get lab (fun w => length (ready w)) 1000 lab_pool example_com boot =
    (Val None, boot).
Proof.
  apply (ProxyPool_Get_on_empty_pool lab (fun w => length (ready w)) 1000
           lab_pool example_com boot eq_refl).
  reflexivity.
Defined.

